(** * fourier: the plot view, sampler, integrator, grid and pointer controller
      of [src/index.ts], embedded in Rocq.

    Every value the program computes with is a JavaScript [number].  The
    embedding is written once, over an interface [Number] of the arithmetic the
    source uses ([+ - * / %], [<], [<=], integer literals), and is read at two
    instances:

    - [R], the real numbers: the exact arithmetic in which the algebraic laws of
      the program are stated and proved;
    - [float], IEEE 754 binary64 as the kernel implements it: the arithmetic the
      program runs with, used to execute the code on concrete inputs and to
      observe the non-finite values ([NaN], infinities) that [R] has no
      counterpart for.

    Rounding error of binary64 is not analysed: general statements are about
    the [R] instance unless they hold for every instance. *)

From Stdlib Require Import ZArith Reals Lra Lia String Bool List.
From Stdlib Require Import Floats.
Import ListNotations.

Set Implicit Arguments.
Set Warnings "-inexact-float".

(** ** The arithmetic of [number] *)

Class Number (num : Type) : Type := {
  of_Z : Z -> num;               (* an integer literal, or an integer counter *)
  add : num -> num -> num;
  sub : num -> num -> num;
  mul : num -> num -> num;
  div : num -> num -> num;
  rem : num -> num -> num;       (* JS [%]: remainder of the truncating division *)
  ltb : num -> num -> bool;
  leb : num -> num -> bool;
}.

Declare Scope num_scope.
Delimit Scope num_scope with num.
Notation "# z" := (of_Z z%Z) (at level 1, format "# z") : num_scope.
Infix "+" := add : num_scope.
Infix "-" := sub : num_scope.
Infix "*" := mul : num_scope.
Infix "/" := div : num_scope.
Infix "mod" := rem : num_scope.
Infix "<?" := ltb : num_scope.
Infix "<=?" := leb : num_scope.
Notation "a >=? b" := (leb b a) (at level 70, only parsing) : num_scope.

(** An integer counter ([i] in [for (let i = 0; ...; i++)]) used as a number. *)
Definition of_nat {num} `{Number num} (n : nat) : num := of_Z (Z.of_nat n).

(** A decimal literal [n/d] with [d] a power of ten, such as [0.1 = 1/10]: in
    binary64 the correctly rounded quotient of two exact integers is the double
    nearest to the decimal, which is what the literal denotes. *)
Definition decimal {num} `{Number num} (n d : Z) : num := (#n / #d)%num.

(** *** Exact instance: the reals *)

Definition Rltb (a b : R) : bool := if Rlt_dec a b then true else false.
Definition Rleb (a b : R) : bool := if Rle_dec a b then true else false.

(** Truncation toward zero, the integer quotient behind [%]. *)
Definition Rtrunc (r : R) : Z :=
  if Rle_dec 0 r then Int_part r else (- Int_part (- r))%Z.

Definition Rrem (a b : R) : R := (a - b * IZR (Rtrunc (a / b)))%R.

#[export] Instance Number_R : Number R := {|
  of_Z := IZR;
  add := Rplus; sub := Rminus; mul := Rmult; div := Rdiv;
  rem := Rrem;
  ltb := Rltb; leb := Rleb;
|}.

(** *** Executable instance: IEEE 754 binary64 *)

(** The double nearest to an integer (exact below [2^53]). *)
Definition float_of_Z (z : Z) : float :=
  SF2Prim (binary_normalize prec emax z 0 false).

(** [%] on doubles (ECMAScript [Number::remainder]): the result is exact, has
    the sign of the dividend, and is [NaN] when the dividend is infinite or the
    divisor is zero. *)
Definition SFrem (a b : spec_float) : spec_float :=
  match a, b with
  | S754_nan, _ | _, S754_nan => S754_nan
  | S754_infinity _, _ => S754_nan
  | _, S754_zero _ => S754_nan
  | S754_zero s, _ => S754_zero s
  | S754_finite _ _ _, S754_infinity _ => a
  | S754_finite sa ma ea, S754_finite _ mb eb =>
      let e := Z.min ea eb in
      let r := Z.rem (Zpos ma * 2 ^ (ea - e)) (Zpos mb * 2 ^ (eb - e)) in
      match r with
      | Zpos p => binary_normalize prec emax (cond_Zopp sa (Zpos p)) e false
      | _ => S754_zero sa
      end
  end.

Definition float_rem (a b : float) : float :=
  SF2Prim (SFrem (Prim2SF a) (Prim2SF b)).

#[export] Instance Number_float : Number float := {|
  of_Z := float_of_Z;
  add := PrimFloat.add; sub := PrimFloat.sub;
  mul := PrimFloat.mul; div := PrimFloat.div;
  rem := float_rem;
  ltb := PrimFloat.ltb; leb := PrimFloat.leb;
|}.

(** ** Data model *)

Record Point (num : Type) : Type := { x : num; y : num }.
Record Rect (num : Type) : Type := { w : num; h : num }.
Record PlotView (num : Type) : Type := { center : Point num; size : Rect num }.

(** The pixel dimensions of the global [canvas], read by [project] and
    [unproject] and written by the resize observer. *)
Record Canvas (num : Type) : Type := { width : num; height : num }.

Section Plot.
Context {num : Type} `{Number num}.
Local Open Scope num_scope.

(** [function map(v, fmin, fmax, tmin, tmax)] *)
Definition map (v fmin fmax tmin tmax : num) : num :=
  (v - fmin) / (fmax - fmin) * (tmax - tmin) + tmin.

(** [get top_left()] *)
Definition top_left (this : PlotView num) : Point num :=
  {| x := this.(center).(x) - this.(size).(w) / #2;
     y := this.(center).(y) + this.(size).(h) / #2 |}.

(** [get bottom_right()] *)
Definition bottom_right (this : PlotView num) : Point num :=
  {| x := (top_left this).(x) + this.(size).(w);
     y := (top_left this).(y) - this.(size).(h) |}.

(** [project(point)]: plot space to screen space. *)
Definition project (canvas : Canvas num) (this : PlotView num) (point : Point num)
  : Point num :=
  let cx := this.(center).(x) in
  let cy := this.(center).(y) in
  let w := this.(size).(w) in
  let h := this.(size).(h) in
  {| x := map point.(x) (cx - w / #2) (cx + w / #2) #0 canvas.(width);
     y := map point.(y) (cy - h / #2) (cy + h / #2) canvas.(height) #0 |}.

(** [unproject(point)]: screen space to plot space. *)
Definition unproject (canvas : Canvas num) (this : PlotView num) (point : Point num)
  : Point num :=
  let br := bottom_right this in
  let tl := top_left this in
  {| x := map point.(x) #0 canvas.(width) tl.(x) br.(x);
     y := map point.(y) canvas.(height) #0 br.(y) tl.(y) |}.


(** *** Arrays and counting loops *)

(** [new Array(n)]: [n] empty slots.  (A length of [2^32] or more throws a
    RangeError in the source; lengths that large are outside the model.) *)
Definition Array_new (A : Type) (n : nat) : list (option A) := repeat None n.

(** [a[i] = v]: an assignment past the end grows the array, leaving holes. *)
Fixpoint Array_set (A : Type) (a : list (option A)) (i : nat) (v : A)
  : list (option A) :=
  match a, i with
  | [], _ => repeat None i ++ [Some v]
  | _ :: rest, O => Some v :: rest
  | slot :: rest, S j => slot :: Array_set rest j v
  end.

(** [for (let i = i0; ...; i++) body] with [k] iterations left. *)
Fixpoint for_count (St : Type) (k i : nat) (body : nat -> St -> St) (s : St) : St :=
  match k with
  | O => s
  | S k' => for_count k' (S i) body (body i s)
  end.

(** [for (let i = 0; i < samples; i++) body].  The sample count is a natural
    number, as at every call site ([new Array(samples)] throws a RangeError on
    anything else); the counter becomes a number, through [of_nat], where the
    body computes with it. *)
Definition for_lt (St : Type) (samples : nat) (body : nat -> St -> St) (s : St) : St :=
  for_count samples 0 body s.

(** [for (let v = v0; cond(v); v = next(v)) body], a loop over numbers: it
    need not terminate, so it runs on fuel and yields [None] when the fuel is
    spent before [cond] fails. *)
Fixpoint for_num (St : Type) (fuel : nat) (cond : num -> bool) (next : num -> num)
    (body : num -> St -> St) (v : num) (s : St) : option St :=
  match fuel with
  | O => None
  | S fuel' =>
      if cond v then for_num fuel' cond next body (next v) (body v s)
      else Some s
  end.

(** *** MathFunction *)

Record MathFunction : Type := { fn : num -> num }.

(** [get(x)] *)
Definition get (this : MathFunction) (v : num) : num := this.(fn) v.

(** [sample(start, end, samples)] *)
Definition sample (this : MathFunction) (start end_ : num) (samples : nat)
  : list (option (Point num)) :=
  let out := Array_new (Point num) samples in
  for_lt samples
    (fun i out =>
       let x := map (of_nat i) #0 (of_nat samples - #1) start end_ in
       Array_set out i {| x := x; y := this.(fn) x |})
    out.

(** [function integrate(f, start, end, samples)] *)
Definition integrate (f : num -> num) (start end_ : num) (samples : nat) : num :=
  let width := map #1 #0 (of_nat samples - #1) start end_ in
  let area := #0 in
  for_lt samples
    (fun i area =>
       let x := map (of_nat i) #0 (of_nat samples - #1) start end_ in
       let y := f x in
       area + width * y)
    area.

(** The integrator as the specification words it: the sum over the sampler's
    points of [step * fn(x_i)], where [step] is the distance between two
    consecutive sample abscissas. *)
Definition spec_step (start end_ : num) (n : nat) : num :=
  map #1 #0 (of_nat n - #1) start end_ - map #0 #0 (of_nat n - #1) start end_.

Definition spec_integrate (f : num -> num) (start end_ : num) (n : nat) : num :=
  fold_left
    (fun acc i => acc + spec_step start end_ n * f (map (of_nat i) #0 (of_nat n - #1) start end_))
    (seq 0 n) #0.

(** *** The drawing context *)

Inductive PathCmd : Type :=
| MoveTo (px py : num)
| LineTo (px py : num).

(** What one call of [ctx.stroke()] puts on the surface. *)
Record Stroke : Type := {
  stroke_style : string;
  stroke_width : num;
  stroke_path : list PathCmd;
}.

Record Ctx : Type := {
  strokeStyle : string;
  lineWidth : num;
  path : list PathCmd;
  surface : list Stroke;
}.

Definition set_strokeStyle (v : string) (ctx : Ctx) : Ctx :=
  {| strokeStyle := v; lineWidth := ctx.(lineWidth);
     path := ctx.(path); surface := ctx.(surface) |}.

Definition set_lineWidth (v : num) (ctx : Ctx) : Ctx :=
  {| strokeStyle := ctx.(strokeStyle); lineWidth := v;
     path := ctx.(path); surface := ctx.(surface) |}.

Definition beginPath (ctx : Ctx) : Ctx :=
  {| strokeStyle := ctx.(strokeStyle); lineWidth := ctx.(lineWidth);
     path := []; surface := ctx.(surface) |}.

Definition moveTo (px py : num) (ctx : Ctx) : Ctx :=
  {| strokeStyle := ctx.(strokeStyle); lineWidth := ctx.(lineWidth);
     path := ctx.(path) ++ [MoveTo px py]; surface := ctx.(surface) |}.

Definition lineTo (px py : num) (ctx : Ctx) : Ctx :=
  {| strokeStyle := ctx.(strokeStyle); lineWidth := ctx.(lineWidth);
     path := ctx.(path) ++ [LineTo px py]; surface := ctx.(surface) |}.

Definition stroke (ctx : Ctx) : Ctx :=
  {| strokeStyle := ctx.(strokeStyle); lineWidth := ctx.(lineWidth);
     path := ctx.(path);
     surface := ctx.(surface) ++
       [{| stroke_style := ctx.(strokeStyle); stroke_width := ctx.(lineWidth);
           stroke_path := ctx.(path) |}] |}.

(** [function clear()]: the rectangle cleared is the whole canvas. *)
Definition clear (ctx : Ctx) : Ctx :=
  {| strokeStyle := ctx.(strokeStyle); lineWidth := ctx.(lineWidth);
     path := ctx.(path); surface := [] |}.

(** A full-height vertical line at screen abscissa [px], and a full-width
    horizontal line at screen ordinate [py]: the three-call pattern
    [beginPath(); moveTo(..); lineTo(..); stroke()] of [grid]. *)
Definition vline (canvas : Canvas num) (px : num) (ctx : Ctx) : Ctx :=
  stroke (lineTo px canvas.(height) (moveTo px #0 (beginPath ctx))).

Definition hline (canvas : Canvas num) (py : num) (ctx : Ctx) : Ctx :=
  stroke (lineTo canvas.(width) py (moveTo #0 py (beginPath ctx))).

Definition translucent : string := "rgba(0, 0, 0, 0.3)".

(** Body of the first loop of [grid], the vertical lines right of the axis:
    the only loop that chooses between the two stroke widths. *)
Definition grid_right_body (canvas : Canvas num) (view : PlotView num)
    (gx : num) (ctx : Ctx) : Ctx :=
  let point := project canvas view {| x := gx; y := #0 |} in
  let ctx :=
    if gx mod #1 <? decimal 1 100
    then set_lineWidth (decimal 8 10) (set_strokeStyle translucent ctx)
    else set_lineWidth (decimal 2 10) (set_strokeStyle translucent ctx) in
  vline canvas point.(x) ctx.

Definition grid_right (fuel : nat) (canvas : Canvas num) (view : PlotView num)
    (granularity : num) (ctx : Ctx) : option Ctx :=
  for_num fuel (fun gx => gx <=? (bottom_right view).(x))
    (fun gx => gx + granularity) (grid_right_body canvas view) granularity ctx.

Definition grid_left (fuel : nat) (canvas : Canvas num) (view : PlotView num)
    (granularity : num) (ctx : Ctx) : option Ctx :=
  for_num fuel (fun gx => gx >=? (top_left view).(x))
    (fun gx => gx - granularity)
    (fun gx ctx => vline canvas (project canvas view {| x := gx; y := #0 |}).(x) ctx)
    granularity ctx.

Definition grid_up (fuel : nat) (canvas : Canvas num) (view : PlotView num)
    (granularity : num) (ctx : Ctx) : option Ctx :=
  for_num fuel (fun gy => gy <=? (top_left view).(y))
    (fun gy => gy + granularity)
    (fun gy ctx => hline canvas (project canvas view {| x := #0; y := gy |}).(y) ctx)
    granularity ctx.

Definition grid_down (fuel : nat) (canvas : Canvas num) (view : PlotView num)
    (granularity : num) (ctx : Ctx) : option Ctx :=
  for_num fuel (fun gy => gy >=? (bottom_right view).(y))
    (fun gy => gy - granularity)
    (fun gy ctx => hline canvas (project canvas view {| x := #0; y := gy |}).(y) ctx)
    granularity ctx.

Definition bind (A B : Type) (m : option A) (k : A -> option B) : option B :=
  match m with
  | Some a => k a
  | None => None
  end.

Notation "'do' c <- m ; k" := (bind m (fun c => k))
  (at level 10, c name, m at level 100, k at level 200, only parsing).

(** [function grid(view, granularity)]; each of the four loops gets [fuel].
    The source's default for [granularity] is 0.1; [render] passes 0.5. *)
Definition grid (fuel : nat) (canvas : Canvas num) (view : PlotView num)
    (granularity : num) (ctx : Ctx) : option Ctx :=
  let ctx := set_lineWidth #2 (set_strokeStyle "black" ctx) in
  let origin := project canvas view {| x := #0; y := #0 |} in
  let ctx := hline canvas origin.(y) ctx in
  let ctx := vline canvas origin.(x) ctx in
  let ctx := set_lineWidth (decimal 2 10) (set_strokeStyle translucent ctx) in
  do ctx <- grid_right fuel canvas view granularity ctx;
  let ctx := set_lineWidth (decimal 2 10) (set_strokeStyle translucent ctx) in
  do ctx <- grid_left fuel canvas view granularity ctx;
  do ctx <- grid_up fuel canvas view granularity ctx;
  grid_down fuel canvas view granularity ctx.

(** *** The pointer and wheel controller *)

(** [type DragData] *)
Record DragData : Type := {
  pointer_id : Z;
  start : Point num;
  view : PlotView num;
}.

(** The globals the listeners read and write: [view], [dragging], the canvas
    size and [canvas.style.cursor]. *)
Record App : Type := {
  app_view : PlotView num;
  app_dragging : option DragData;
  app_canvas : Canvas num;
  app_cursor : string;
}.

Inductive Event : Type :=
| PointerDown (pointerId : Z) (at_ : Point num)
| PointerMove (pointerId : Z) (at_ : Point num)
| PointerUp (pointerId : Z) (at_ : Point num)
| Wheel (deltaY : num)
| Resize (rect : Canvas num).

(** ['pointerdown'] listener *)
Definition on_pointerdown (pointerId : Z) (e : Point num) (app : App) : App :=
  match app.(app_dragging) with
  | Some _ => app
  | None =>
      let live := app.(app_view) in
      {| app_view := live;
         app_dragging := Some
           {| pointer_id := pointerId;
              start := unproject app.(app_canvas) live {| x := e.(x); y := e.(y) |};
              view := {| center := {| x := live.(center).(x); y := live.(center).(y) |};
                         size := {| w := live.(size).(w); h := live.(size).(h) |} |} |};
         app_canvas := app.(app_canvas);
         app_cursor := "grabbing" |}
  end.

(** ['pointermove'] listener *)
Definition on_pointermove (pointerId : Z) (e : Point num) (app : App) : App :=
  match app.(app_dragging) with
  | None => app
  | Some dragging =>
      if negb (dragging.(pointer_id) =? pointerId)%Z then app
      else
        let point :=
          unproject app.(app_canvas) dragging.(view) {| x := e.(x); y := e.(y) |} in
        let diff :=
          {| x := point.(x) - dragging.(start).(x);
             y := dragging.(start).(y) - point.(y) |} in
        {| app_view :=
             {| center := {| x := dragging.(view).(center).(x) - diff.(x);
                             y := dragging.(view).(center).(y) + diff.(y) |};
                size := app.(app_view).(size) |};
           app_dragging := app.(app_dragging);
           app_canvas := app.(app_canvas);
           app_cursor := app.(app_cursor) |}
  end.

(** ['pointerup'] listener *)
Definition on_pointerup (pointerId : Z) (app : App) : App :=
  match app.(app_dragging) with
  | None => app
  | Some dragging =>
      if negb (dragging.(pointer_id) =? pointerId)%Z then app
      else
        {| app_view := app.(app_view);
           app_dragging := None;
           app_canvas := app.(app_canvas);
           app_cursor := "" |}
  end.

(** ['wheel'] listener *)
Definition on_wheel (deltaY : num) (app : App) : App :=
  let view_size_w := app.(app_view).(size).(w) in
  let view_size_h := app.(app_view).(size).(h) in
  let dy := deltaY in
  let w := view_size_w in
  let h := view_size_h in
  {| app_view :=
       {| center := app.(app_view).(center);
          size := {| w := view_size_w + w * decimal 1 10 * dy / #125;
                     h := view_size_h + h * decimal 1 10 * dy / #125 |} |};
     app_dragging := app.(app_dragging);
     app_canvas := app.(app_canvas);
     app_cursor := app.(app_cursor) |}.

(** The resize observer's callback.  The canvas attributes hold unsigned
    integers: the model stores the rectangle as given, which is what the
    source does for whole, non-negative sizes below [2^31]; the conversion of
    other values (truncation, NaN to 0, negative to the default 300) is not
    modelled. *)
Definition on_resize (rect : Canvas num) (app : App) : App :=
  {| app_view := app.(app_view);
     app_dragging := app.(app_dragging);
     app_canvas := {| width := rect.(width); height := rect.(height) |};
     app_cursor := app.(app_cursor) |}.

Definition dispatch (app : App) (ev : Event) : App :=
  match ev with
  | PointerDown id e => on_pointerdown id e app
  | PointerMove id e => on_pointermove id e app
  | PointerUp id _ => on_pointerup id app
  | Wheel deltaY => on_wheel deltaY app
  | Resize rect => on_resize rect app
  end.

(** The listeners run one after another on the single event thread. *)
Definition run (app : App) (events : list Event) : App :=
  fold_left dispatch events app.

(** [const view = new PlotView({x: 2, y: 0}, {w: 4, h: 8})] *)
Definition initial_view : PlotView num :=
  {| center := {| x := #2; y := #0 |}; size := {| w := #4; h := #8 |} |}.

Definition initial_app (canvas : Canvas num) : App :=
  {| app_view := initial_view; app_dragging := None;
     app_canvas := canvas; app_cursor := "" |}.

(** The surface of the drag scenario, 800 by 600 pixels. *)
Definition canvas_800x600 : Canvas num := {| width := #800; height := #600 |}.

(** *** The polyline plotter *)

(** [a.forEach((v, i) => body)]: visits the filled slots in index order and
    skips the holes; [i] is the index of the slot in the array. *)
Fixpoint forEach (A St : Type) (a : list (option A)) (i : nat)
    (body : A -> nat -> St -> St) (s : St) : St :=
  match a with
  | [] => s
  | None :: rest => forEach rest (S i) body s
  | Some v :: rest => forEach rest (S i) body (body v i s)
  end.

(** [function plot(points, view, color)] *)
Definition plot (canvas : Canvas num) (points : list (option (Point num)))
    (view : PlotView num) (color : string) (ctx : Ctx) : Ctx :=
  let ctx := beginPath ctx in
  let ctx :=
    forEach points 0
      (fun raw i ctx =>
         let point := project canvas view raw in
         if (i =? 0)%nat then moveTo point.(x) point.(y) ctx
         else lineTo point.(x) point.(y) ctx)
      ctx in
  let ctx := set_lineWidth #2 ctx in
  let ctx := set_strokeStyle color ctx in
  stroke ctx.

(** *** Notions used in the statements about [grid] *)

(** The stroke of a full-height vertical line through the projection of the
    plot abscissa [gx], in the translucent style, with the given line width. *)
Definition gridline (canvas : Canvas num) (view : PlotView num) (gx width : num)
  : Stroke :=
  let px := (project canvas view {| x := gx; y := #0 |}).(x) in
  {| stroke_style := translucent; stroke_width := width;
     stroke_path := [MoveTo px #0; LineTo px canvas.(height)] |}.

(** *** Notion used in the statements about [frame] *)

(** The path of the polyline through the projections of the given plot-space
    points: a move to the first, then a line to each of the others. *)
Definition polyline (canvas : Canvas num) (view : PlotView num)
    (pts : list (Point num)) : list PathCmd :=
  match pts with
  | [] => []
  | p :: rest =>
      MoveTo (project canvas view p).(x) (project canvas view p).(y)
      :: List.map
           (fun q => LineTo (project canvas view q).(x) (project canvas view q).(y))
           rest
  end.

End Plot.

(** A real lies within 0.01 above an integer: [k <= v < k + 0.01]. *)
Definition within_above_integer (v : R) : Prop :=
  exists k : Z, (IZR k <= v < IZR k + 1 / 100)%R.

(** *** The transform functions and the frame

    [Math.sin], [Math.cos], [Math.sqrt] and [Math.PI] have no counterpart in
    the [Number] interface: this part of the program is read over the reals
    only, with the real functions of the same names.  The globals [Freq] and
    [Phase], which [render] rewrites on every frame and the closures read when
    they are called, are passed explicitly. *)

Module Fourier.

(** [const f = new MathFunction(x => Math.sin(Freq * x - Phase))] *)
Definition f (Freq Phase : R) : @MathFunction R :=
  {| fn := fun v => sin (Freq * v - Phase) |}.

(** [const C = new MathFunction(w => integrate(x => f.get(x) * Math.sin(w * x),
    0, Math.PI * 20, 1000))] *)
Definition C (Freq Phase : R) : @MathFunction R :=
  {| fn := fun w0 =>
       integrate (fun v => get (f Freq Phase) v * sin (w0 * v)) 0 (PI * 20) 1000 |}%R.

(** [const D], the same with [Math.cos]. *)
Definition D (Freq Phase : R) : @MathFunction R :=
  {| fn := fun w0 =>
       integrate (fun v => get (f Freq Phase) v * cos (w0 * v)) 0 (PI * 20) 1000 |}%R.

(** [const A = new MathFunction(w => Math.sqrt(c * c + d * d))] *)
Definition A (Freq Phase : R) : @MathFunction R :=
  {| fn := fun w0 =>
       let c := get (C Freq Phase) w0 in
       let d := get (D Freq Phase) w0 in
       R_sqrt.sqrt (c * c + d * d) |}%R.

End Fourier.

(** The two globals [render] assigns from the clock reading [now = Date.now()]:
    [t = now / 1000 / 4], [Freq = Math.sin(t) + 1.5] and
    [Phase = (t % 1) * Math.PI * 2]. *)
Definition render_Freq (now : R) : R := (sin (now / 1000 / 4) + 15 / 10)%R.
Definition render_Phase (now : R) : R := (Rrem (now / 1000 / 4) 1 * PI * 2)%R.

(** [function render()], at the clock reading [now]: the grid, then the new
    [Freq] and [Phase], then the two curves sampled with them. *)
Definition render (fuel : nat) (now : R) (canvas : Canvas R) (view : PlotView R)
    (ctx : @Ctx R) : option (@Ctx R) :=
  bind (grid fuel canvas view (decimal 5 10) ctx) (fun ctx =>
  let Freq := render_Freq now in
  let Phase := render_Phase now in
  let ctx :=
    plot canvas (sample (Fourier.C Freq Phase) 0%R 4%R 1000) view "cornflowerblue" ctx in
  let ctx :=
    plot canvas (sample (Fourier.D Freq Phase) 0%R 4%R 1000) view "rebeccapurple" ctx in
  Some ctx).

(** [function frame(t)]: [clear()], then [render()]; the next frame is the
    next call. *)
Definition frame (fuel : nat) (now : R) (canvas : Canvas R) (view : PlotView R)
    (ctx : @Ctx R) : option (@Ctx R) :=
  render fuel now canvas view (clear ctx).

Unset Implicit Arguments.

(** * Properties *)

(** ** Reading the generic code at the reals *)

(** Exposes the real-number operations behind the [Number] interface. *)
Ltac at_R :=
  unfold decimal, of_nat in *;
  cbn [of_Z add sub mul div rem ltb leb Number_R] in *.

Lemma Rltb_true (a b : R) : Rltb a b = true <-> (a < b)%R.
Proof.
  unfold Rltb. destruct (Rlt_dec a b); split; intros; try easy; lra.
Qed.

Lemma Rleb_true (a b : R) : Rleb a b = true <-> (a <= b)%R.
Proof.
  unfold Rleb. destruct (Rle_dec a b); split; intros; try easy; lra.
Qed.

Lemma Rltb_false (a b : R) : Rltb a b = false <-> (b <= a)%R.
Proof.
  unfold Rltb. destruct (Rlt_dec a b); split; intros; try easy; lra.
Qed.

Lemma Rleb_false (a b : R) : Rleb a b = false <-> (b < a)%R.
Proof.
  unfold Rleb. destruct (Rle_dec a b); split; intros; try easy; lra.
Qed.

(** [map] over the reals is the affine interpolation. *)
Lemma map_R (v fmin fmax tmin tmax : R) :
  map v fmin fmax tmin tmax = ((v - fmin) / (fmax - fmin) * (tmax - tmin) + tmin)%R.
Proof. reflexivity. Qed.

(** ** The coordinate mapper *)

Section Mapper.
(* Here [number] is read as a real number, unless a statement is generic. *)
Local Open Scope R_scope.

(** C6, as amended: over the reals, for all from_min, from_max, to_min, to_max
    with from_min <> from_max,
    [map(from_min, from_min, from_max, to_min, to_max)] is [to_min] and
    [map(from_max, from_min, from_max, to_min, to_max)] is [to_max]. *)
Theorem map_endpoints (fmin fmax tmin tmax : R) :
  fmin <> fmax ->
  map fmin fmin fmax tmin tmax = tmin /\ map fmax fmin fmax tmin tmax = tmax.
Proof.
  intros Hne. rewrite !map_R. split; field; lra.
Qed.

Lemma map_endpoints_witness :
  0 <> 800 /\ (map 0 0 800 0 4 = 0 /\ map 800 0 800 0 4 = 4).
Proof.
  split; [lra | apply (map_endpoints 0 800 0 4); lra].
Defined.

End Mapper.

(** ** The plot view *)

Section Projection.
(* Here [number] is read as a real number, unless a statement is generic. *)
Local Open Scope R_scope.

(** The corners, as the data model derives them from center and size. *)
Lemma corners_R (view : PlotView R) :
  top_left view =
    {| x := x (center view) - w (size view) / 2;
       y := y (center view) + h (size view) / 2 |} /\
  bottom_right view =
    {| x := x (center view) - w (size view) / 2 + w (size view);
       y := y (center view) + h (size view) / 2 - h (size view) |}.
Proof. split; reflexivity. Qed.

(** [project] sends the left and right edges of the view to the left and right
    edges of the surface, and the bottom and top edges to its bottom and top. *)
Lemma project_corners (canvas : Canvas R) (view : PlotView R) :
  w (size view) <> 0 -> h (size view) <> 0 ->
  project canvas view (top_left view) = {| x := 0; y := 0 |} /\
  project canvas view (bottom_right view) =
    {| x := width canvas; y := height canvas |}.
Proof.
  intros Hw Hh. destruct view as [[cx cy] [vw vh]]; cbn in Hw, Hh.
  unfold project, top_left, bottom_right, map; at_R; cbn.
  split; f_equal; field; lra.
Qed.

(** C2, as amended: for every view with [size.w <> 0] and [size.h <> 0], every
    surface whose pixel width and height are both non-zero, and every
    plot-space point [p], [unproject(project(p))] is [p], exactly over the
    reals. *)
Theorem unproject_project (canvas : Canvas R) (view : PlotView R) (p : Point R) :
  w (size view) <> 0 -> h (size view) <> 0 ->
  width canvas <> 0 -> height canvas <> 0 ->
  unproject canvas view (project canvas view p) = p.
Proof.
  intros Hw Hh HW HH.
  destruct view as [[cx cy] [vw vh]], canvas as [W H], p as [px py].
  cbn in Hw, Hh, HW, HH.
  unfold unproject, project, top_left, bottom_right, map; at_R; cbn.
  f_equal; field; lra.
Qed.

Lemma unproject_project_witness :
  let canvas := {| width := 800; height := 600 |} in
  let p := {| x := 1; y := 3 |} in
  (w (size initial_view) <> 0 /\ h (size initial_view) <> 0 /\
   width canvas <> 0 /\ height canvas <> 0) /\
  unproject canvas initial_view (project canvas initial_view p) = p.
Proof.
  cbn zeta. split.
  - cbn. repeat split; lra.
  - apply unproject_project; cbn; lra.
Defined.

(** The other round trip, screen to plot to screen, under the same conditions. *)
Lemma project_unproject (canvas : Canvas R) (view : PlotView R) (p : Point R) :
  w (size view) <> 0 -> h (size view) <> 0 ->
  width canvas <> 0 -> height canvas <> 0 ->
  project canvas view (unproject canvas view p) = p.
Proof.
  intros Hw Hh HW HH.
  destruct view as [[cx cy] [vw vh]], canvas as [W H], p as [px py].
  cbn in Hw, Hh, HW, HH.
  unfold unproject, project, top_left, bottom_right, map; at_R; cbn.
  f_equal; field; lra.
Qed.

(** On a surface of pixel width [0] every point is projected to abscissa [0]:
    [project] loses the abscissa, and no inverse can give it back. *)
Lemma project_flat_surface (view : PlotView R) (H : R) (p : Point R) :
  x (project {| width := 0; height := H |} view p) = 0.
Proof.
  unfold project, map; at_R; cbn. lra.
Qed.

(** C2, counterexample: the initial view ([size = (4, 8)]) on a surface of
    [0 x 600] pixels, at the plot-space point [(1, 3)]. *)
Lemma roundtrip_fails_on_flat_surface :
  let canvas := {| width := 0; height := 600 |} in
  let p := {| x := 1; y := 3 |} in
  w (size initial_view) <> 0 /\ h (size initial_view) <> 0 /\
  unproject canvas initial_view (project canvas initial_view p) <> p.
Proof.
  cbn zeta. repeat split; try (cbn; lra).
  intros E. apply (f_equal (@x R)) in E. revert E.
  unfold unproject, project, initial_view, top_left, bottom_right, map; at_R; cbn.
  lra.
Qed.

End Projection.

(** ** Counting loops and arrays *)

Section Loops.
Context {num : Type} `{Number num}.

(** A counting loop folds its body over the indices it visits. *)
Lemma for_count_seq (St : Type) (body : nat -> St -> St) (k i : nat) (s : St) :
  for_count k i body s = fold_left (fun acc j => body j acc) (seq i k) s.
Proof.
  revert i s. induction k as [|k IH]; intros i s; cbn; [reflexivity | apply IH].
Qed.

(** Writing slot [i] of an array whose first [i] slots are [pre]. *)
Lemma Array_set_app (A : Type) (pre rest : list (option A)) (slot : option A)
    (i : nat) (v : A) :
  length pre = i ->
  Array_set (pre ++ slot :: rest) i v = pre ++ Some v :: rest.
Proof.
  revert i. induction pre as [|p pre IH]; intros i Hlen; cbn in *; subst i.
  - reflexivity.
  - f_equal. now apply IH.
Qed.

(** The loop of [sample] fills the slots left to right: after it, the array
    holds the points of all the indices, and no hole. *)
Lemma fill_loop (A : Type) (P : nat -> A) (k i : nat) :
  for_count k i (fun j out => Array_set out j (P j))
    (List.map (fun j => Some (P j)) (seq 0 i) ++ repeat None k)
  = List.map (fun j => Some (P j)) (seq 0 (i + k)).
Proof.
  revert i. induction k as [|k IH]; intros i; cbn [for_count repeat].
  - now rewrite app_nil_r, Nat.add_0_r.
  - rewrite Array_set_app by now rewrite length_map, length_seq.
    replace (i + S k)%nat with (S i + k)%nat by lia.
    rewrite <- IH. f_equal.
    rewrite seq_S, map_app, <- app_assoc. reflexivity.
Qed.

(** [sample] returns, in order, the point of every index below the count. *)
Lemma sample_points (f : MathFunction) (a b : num) (n : nat) :
  sample f a b n =
  List.map
    (fun i => Some {| x := map (of_nat i) (of_Z 0) (sub (of_nat n) (of_Z 1)) a b;
                      y := fn f (map (of_nat i) (of_Z 0) (sub (of_nat n) (of_Z 1)) a b) |})
    (seq 0 n).
Proof.
  unfold sample, for_lt, Array_new.
  exact (fill_loop _
    (fun i => {| x := map (of_nat i) (of_Z 0) (sub (of_nat n) (of_Z 1)) a b;
                 y := fn f (map (of_nat i) (of_Z 0) (sub (of_nat n) (of_Z 1)) a b) |})
    n 0).
Qed.

(** [integrate] adds up [width * f(x_i)] over the sampler's abscissas, where
    [width] is [map(1, 0, samples - 1, start, end)]. *)
Lemma integrate_sum (f : num -> num) (a b : num) (n : nat) :
  integrate f a b n =
  fold_left
    (fun area i =>
       add area (mul (map (of_Z 1) (of_Z 0) (sub (of_nat n) (of_Z 1)) a b)
                     (f (map (of_nat i) (of_Z 0) (sub (of_nat n) (of_Z 1)) a b))))
    (seq 0 n) (of_Z 0).
Proof.
  unfold integrate, for_lt. apply for_count_seq.
Qed.

(** With a sample count of 0 neither loop runs: the sampler returns the empty
    array and the integrator the initial area, whatever the arithmetic. *)
Lemma zero_samples (f : MathFunction) (a b : num) :
  sample f a b 0 = [] /\ integrate (fn f) a b 0 = of_Z 0.
Proof. split; reflexivity. Qed.

End Loops.

(** ** The sampler and the integrator *)

Section Sampling.
(* Here [number] is read as a real number, unless a statement is generic. *)
Local Open Scope R_scope.

Lemma of_nat_R (n : nat) : of_nat n = INR n.
Proof. unfold of_nat; cbn. symmetry. apply INR_IZR_INZ. Qed.

(** Over the reals the sample abscissas are evenly spaced from [a] to [b]. *)
Lemma sample_abscissa (a b : R) (n i : nat) :
  (2 <= n)%nat ->
  map (of_nat i) 0 (of_nat n - 1) a b = a + INR i * ((b - a) / (INR n - 1)).
Proof.
  intros Hn. rewrite map_R, !of_nat_R.
  assert (2 <= INR n) by (apply (le_INR 2); exact Hn).
  field. lra.
Qed.

(** C5, as amended: for every function, bounds [a] and [b] and count [n >= 2],
    [sample(fn, a, b, n)] is a sequence of exactly [n] points whose [i]-th
    point is [(x_i, fn(x_i))] with [x_i = map(i, 0, n-1, a, b)]; over the
    reals the first abscissa is [a] and the last is [b]; and calls that agree
    on their arguments return the same sequence. *)
Theorem sample_spec (f : MathFunction) (a b : R) (n : nat) :
  (2 <= n)%nat ->
  let xi := fun i : nat => map (of_nat i) 0 (of_nat n - 1) a b in
  sample f a b n =
    List.map (fun i => Some {| x := xi i; y := fn f (xi i) |}) (seq 0 n) /\
  length (sample f a b n) = n /\
  nth_error (sample f a b n) 0 = Some (Some {| x := a; y := fn f a |}) /\
  nth_error (sample f a b n) (n - 1) = Some (Some {| x := b; y := fn f b |}) /\
  (forall g : MathFunction,
     (forall v, fn g v = fn f v) -> sample g a b n = sample f a b n).
Proof.
  intros Hn xi.
  assert (Hn' : 2 <= INR n) by (apply (le_INR 2); exact Hn).
  assert (Hfirst : xi 0%nat = a).
  { subst xi. cbn beta. rewrite sample_abscissa by exact Hn. cbn. lra. }
  assert (Hlast : xi (n - 1)%nat = b).
  { subst xi. cbn beta. rewrite sample_abscissa by exact Hn.
    rewrite minus_INR by lia. cbn. field. lra. }
  assert (Hnth : forall i, (i < n)%nat ->
            nth_error (sample f a b n) i = Some (Some {| x := xi i; y := fn f (xi i) |})).
  { intros i Hi. rewrite sample_points.
    rewrite (nth_error_map (fun i => Some _)), nth_error_seq.
    destruct (Nat.ltb_spec i n) as [_|]; [reflexivity | lia]. }
  repeat split.
  - exact (sample_points f a b n).
  - now rewrite sample_points, length_map, length_seq.
  - rewrite Hnth by lia. now rewrite Hfirst.
  - rewrite Hnth by lia. now rewrite Hlast.
  - intros g Hg. rewrite !sample_points. apply map_ext. intros i.
    now rewrite Hg.
Qed.

Lemma sample_spec_witness :
  let f := {| fn := fun v : R => v * v |} in
  (2 <= 3)%nat /\
  nth_error (sample f 1 5 3) (3 - 1) = Some (Some {| x := 5; y := 5 * 5 |}).
Proof.
  intros f. split; [lia|].
  exact (proj1 (proj2 (proj2 (proj2 (sample_spec f 1 5 3 (le_S 2 2 (le_n 2))))))).
Defined.

Lemma fold_left_pointwise (A B : Type) (f g : A -> B -> A) (l : list B) (acc : A) :
  (forall a0 b0, In b0 l -> f a0 b0 = g a0 b0) ->
  fold_left f l acc = fold_left g l acc.
Proof.
  revert acc. induction l as [|b0 l IH]; intros acc Hfg; cbn; [reflexivity|].
  rewrite Hfg by now left. apply IH. intros a1 b1 Hin. apply Hfg. now right.
Qed.

(** The factor [integrate] calls [width] is the abscissa of the second sample,
    [map(1, 0, n-1, start, end)]: the distance between two samples plus
    [start]. *)
Lemma integrate_width (a b : R) (n : nat) :
  (2 <= n)%nat ->
  spec_step a b n = (b - a) / (INR n - 1) /\
  map 1 0 (of_nat n - 1) a b = spec_step a b n + a.
Proof.
  intros Hn. unfold spec_step. rewrite !map_R. at_R. rewrite <- !INR_IZR_INZ.
  assert (2 <= INR n) by (apply (le_INR 2); exact Hn).
  split; field; lra.
Qed.

(** So the code and the specification's sum agree when integration starts at
    0, as it does at every call site of the program. *)
Lemma integrate_from_zero (f : R -> R) (b : R) (n : nat) :
  (2 <= n)%nat -> integrate f 0 b n = spec_integrate f 0 b n.
Proof.
  intros Hn. rewrite integrate_sum. unfold spec_integrate.
  apply fold_left_pointwise. intros acc i _.
  destruct (integrate_width 0 b n Hn) as [_ E]. cbn in E |- *. rewrite E. lra.
Qed.

End Sampling.

(** ** The pointer and wheel controller *)

Section Controller.
(* Here [number] is read as a real number, unless a statement is generic. *)
Local Open Scope R_scope.

(** A pointer-down while idle starts a session that records the pointer, the
    plot-space anchor and a copy of the view; the live view is untouched. *)
Lemma pointerdown_idle {num} `{Number num} (id : Z) (e : Point num) (app : App) :
  app_dragging app = None ->
  app_dragging (on_pointerdown id e app) =
    Some {| pointer_id := id;
            start := unproject (app_canvas app) (app_view app) e;
            view := app_view app |} /\
  app_view (on_pointerdown id e app) = app_view app.
Proof.
  intros Hidle. unfold on_pointerdown. rewrite Hidle. cbn.
  destruct e as [ex ey], (app_view app) as [[cx cy] [vw vh]]. split; reflexivity.
Qed.

(** A pointer-down during a drag is ignored. *)
Lemma pointerdown_dragging {num} `{Number num} (id : Z) (e : Point num)
    (app : App) (d : DragData) :
  app_dragging app = Some d -> on_pointerdown id e app = app.
Proof.
  intros Hd. unfold on_pointerdown. now rewrite Hd.
Qed.

(** A pointer-move of another pointer, or while idle, is ignored. *)
Lemma pointermove_ignored {num} `{Number num} (id : Z) (e : Point num) (app : App) :
  (forall d, app_dragging app = Some d -> pointer_id d <> id) ->
  on_pointermove id e app = app.
Proof.
  intros Hother. unfold on_pointermove.
  destruct (app_dragging app) as [d|]; [|reflexivity].
  specialize (Hother d eq_refl). apply Z.eqb_neq in Hother. now rewrite Hother.
Qed.

(** C3, as amended: while a drag is active, a pointer-move with the matching
    pointer id unprojects the new screen point through the frozen snapshot
    view and sets the live view's center to the snapshot center minus the
    plot-space delta (new point minus anchor), in x and in y alike; size and
    session are untouched.  For the view centered at (2,0) with size (4,8) on
    an 800x600 surface, pointer-down at (400,300) then pointer-move to
    (450,300) shifts the center's x by -0.25 and leaves its y alone. *)
Theorem pointermove_drags (app : App) (d : DragData) (e : Point R) :
  app_dragging app = Some d ->
  let point := unproject (app_canvas app) (view d) e in
  let app' := on_pointermove (pointer_id d) e app in
  (x (center (app_view app')) = x (center (view d)) - (x point - x (start d)) /\
   y (center (app_view app')) = y (center (view d)) - (y point - y (start d)) /\
   size (app_view app') = size (app_view app) /\
   app_dragging app' = Some d) /\
  (forall id : Z,
     let moved :=
       run (initial_app canvas_800x600)
         [PointerDown id {| x := 400; y := 300 |};
          PointerMove id {| x := 450; y := 300 |}] in
     x (center (app_view moved)) = x (center initial_view) - 25 / 100 /\
     y (center (app_view moved)) = y (center initial_view)).
Proof.
  intros Hd point app'. split.
  - subst app' point. unfold on_pointermove. rewrite Hd, Z.eqb_refl. cbn.
    destruct e as [ex ey]. at_R. cbn. repeat split; try reflexivity; lra.
  - intros id moved. subst moved. cbn. rewrite Z.eqb_refl. cbn.
    unfold unproject, top_left, bottom_right, map; at_R; cbn. split; field.
Qed.

Lemma pointermove_drags_witness :
  let snapshot := initial_view in
  let d := {| pointer_id := 7; start := {| x := 2; y := 0 |}; view := snapshot |} in
  let app := {| app_view := initial_view; app_dragging := Some d;
                app_canvas := canvas_800x600; app_cursor := "grabbing" |} in
  let e := {| x := 450; y := 300 |} in
  app_dragging app = Some d /\
  x (center (app_view (on_pointermove 7 e app)))
    = x (center snapshot) - (x (unproject canvas_800x600 snapshot e) - 2).
Proof.
  intros snapshot d app e. split; [reflexivity|].
  exact (proj1 (proj1 (pointermove_drags app d e eq_refl))).
Defined.

(** C3, counterexample: from the same start, a pointer-move straight down to
    (400,360).  The plot-space point under the pointer moves by -0.8 in y; the
    center's y goes to +0.8, where the snapshot center plus the delta is -0.8. *)
Lemma drag_y_is_not_plus_delta :
  let down := {| x := 400; y := 300 |} in
  let move := {| x := 400; y := 360 |} in
  let anchor := unproject canvas_800x600 initial_view down in
  let point := unproject canvas_800x600 initial_view move in
  let moved :=
    run (initial_app canvas_800x600) [PointerDown 1 down; PointerMove 1 move] in
  y point - y anchor = - 8 / 10 /\
  y (center (app_view moved)) = 8 / 10 /\
  y (center (app_view moved)) <> y (center initial_view) + (y point - y anchor).
Proof.
  cbn. unfold unproject, top_left, bottom_right, map; at_R; cbn.
  repeat split; try field. lra.
Qed.

(** C4: every wheel event multiplies the live view's width and its height by
    [1 + 0.1 * deltaY / 125], whatever the drag state, which it leaves alone
    together with the center; from size (4, 8), [deltaY = 125] gives
    (4.4, 8.8). *)
Theorem wheel_scales (deltaY : R) (app : App) :
  let app' := on_wheel deltaY app in
  (w (size (app_view app')) = w (size (app_view app)) * (1 + 1 / 10 * deltaY / 125) /\
   h (size (app_view app')) = h (size (app_view app)) * (1 + 1 / 10 * deltaY / 125) /\
   center (app_view app') = center (app_view app) /\
   app_dragging app' = app_dragging app) /\
  (forall (canvas : Canvas R) (dragging : option DragData),
     size (app_view (on_wheel 125
       {| app_view := initial_view; app_dragging := dragging;
          app_canvas := canvas; app_cursor := "" |}))
     = {| w := 44 / 10; h := 88 / 10 |}).
Proof.
  cbn zeta. split.
  - unfold on_wheel; at_R; cbn. repeat split; try reflexivity; field.
  - intros canvas dragging. unfold on_wheel; at_R; cbn. f_equal; field.
Qed.

(** C9, as amended: the wheel listener does not keep the size positive.  Over
    the reals, from any positive size, [deltaY = -1250] sets width and height
    to 0 and any [deltaY < -1250] makes both negative: nothing clamps the
    result. *)
Theorem wheel_breaks_positivity (app : App) :
  0 < w (size (app_view app)) -> 0 < h (size (app_view app)) ->
  (w (size (app_view (on_wheel (-1250) app))) = 0 /\
   h (size (app_view (on_wheel (-1250) app))) = 0) /\
  (forall deltaY : R, deltaY < -1250 ->
     w (size (app_view (on_wheel deltaY app))) < 0 /\
     h (size (app_view (on_wheel deltaY app))) < 0).
Proof.
  intros Hw Hh. unfold on_wheel; at_R; cbn. split.
  - split; field.
  - intros deltaY Hdy.
    assert (Hf : 1 + 1 / 10 * deltaY / 125 < 0) by lra.
    split.
    + replace (_ + _) with (w (size (app_view app)) * (1 + 1 / 10 * deltaY / 125))
        by field. nra.
    + replace (_ + _) with (h (size (app_view app)) * (1 + 1 / 10 * deltaY / 125))
        by field. nra.
Qed.

Lemma wheel_breaks_positivity_witness :
  let app := initial_app canvas_800x600 in
  (0 < w (size (app_view app)) /\ 0 < h (size (app_view app))) /\
  w (size (app_view (on_wheel (-1250) app))) = 0 /\
  w (size (app_view (on_wheel (-2500) app))) < 0.
Proof.
  cbn zeta.
  assert (Hw : 0 < w (size (app_view (initial_app canvas_800x600)))) by (cbn; lra).
  assert (Hh : 0 < h (size (app_view (initial_app canvas_800x600)))) by (cbn; lra).
  split; [split; assumption|].
  pose proof (wheel_breaks_positivity (initial_app canvas_800x600) Hw Hh) as [[Hz _] Hneg].
  split; [exact Hz|]. apply (Hneg (-2500)). lra.
Defined.

(** The drag session is only ever replaced by itself, except by the pointer-up
    of its own pointer. *)
Lemma dispatch_keeps_session {num} `{Number num} (app : App) (d : DragData)
    (ev : Event) :
  app_dragging app = Some d ->
  app_dragging (dispatch app ev) = Some d \/
  (exists e, ev = PointerUp (pointer_id d) e) /\ app_dragging (dispatch app ev) = None.
Proof.
  intros Hd. destruct ev as [id e|id e|id e|deltaY|rect]; cbn.
  - left. unfold on_pointerdown. now rewrite Hd.
  - left. unfold on_pointermove. rewrite Hd.
    destruct (pointer_id d =? id)%Z; cbn; auto.
  - unfold on_pointerup. rewrite Hd.
    destruct (Z.eqb_spec (pointer_id d) id) as [<-|Hne]; cbn.
    + right. split; [now exists e | reflexivity].
    + left. auto.
  - left. assumption.
  - left. assumption.
Qed.

(** C10: during a drag, a pointer-up whose pointer id is not the session's
    changes nothing (session, view center and size, surface size, cursor);
    the pointer-up with the session's id ends the session, and no other event
    does. *)
Theorem pointerup_other_pointer {num} `{Number num} (app : App) (d : DragData) :
  app_dragging app = Some d ->
  (forall (id : Z) (e : Point num),
     id <> pointer_id d -> dispatch app (PointerUp id e) = app) /\
  (forall e : Point num,
     app_dragging (dispatch app (PointerUp (pointer_id d) e)) = None) /\
  (forall ev : Event,
     app_dragging (dispatch app ev) = None ->
     exists e, ev = PointerUp (pointer_id d) e).
Proof.
  intros Hd. repeat split.
  - intros id e Hne. cbn. unfold on_pointerup. rewrite Hd.
    destruct (Z.eqb_spec (pointer_id d) id) as [E|_]; [congruence | reflexivity].
  - intros e. cbn. unfold on_pointerup. now rewrite Hd, Z.eqb_refl.
  - intros ev Hgone.
    destruct (dispatch_keeps_session app d ev Hd) as [Hkept|[Hup _]];
      [congruence | exact Hup].
Qed.

Lemma pointerup_other_pointer_witness :
  let d := {| pointer_id := 7; start := {| x := 2; y := 0 |}; view := initial_view |} in
  let app := {| app_view := initial_view; app_dragging := Some d;
                app_canvas := canvas_800x600; app_cursor := "grabbing" |} in
  app_dragging app = Some d /\
  dispatch app (PointerUp 8 {| x := 450; y := 300 |}) = app.
Proof.
  intros d app. split; [reflexivity|].
  apply (proj1 (pointerup_other_pointer app d eq_refl)). discriminate.
Defined.

End Controller.

(** ** Loops over numbers *)

Section NumberLoops.
Context {num : Type} `{Number num}.
Context {St : Type} (cond : num -> bool) (next : num -> num) (body : num -> St -> St).

(** More fuel does not change the result of a loop that finished. *)
Lemma for_num_more_fuel (fuel extra : nat) (v : num) (s s' : St) :
  for_num fuel cond next body v s = Some s' ->
  for_num (fuel + extra) cond next body v s = Some s'.
Proof.
  revert v s. induction fuel as [|fuel IH]; intros v s; cbn; [discriminate|].
  destruct (cond v); [apply IH | trivial].
Qed.

(** A property kept by the body holds when the loop finishes. *)
Lemma for_num_invariant (Inv : num -> St -> Prop) (fuel : nat) (v : num) (s s' : St) :
  (forall v0 s0, Inv v0 s0 -> cond v0 = true -> Inv (next v0) (body v0 s0)) ->
  Inv v s ->
  for_num fuel cond next body v s = Some s' ->
  exists v', Inv v' s' /\ cond v' = false.
Proof.
  intros Hstep. revert v s.
  induction fuel as [|fuel IH]; intros v s Hinv; cbn; [discriminate|].
  destruct (cond v) eqn:Hc.
  - apply IH. now apply Hstep.
  - intros [= <-]. now exists v.
Qed.

End NumberLoops.

(** ** The grid *)

Section Grid.
(* Here [number] is read as a real number, unless a statement is generic. *)
Local Open Scope R_scope.

(** A loop that counts up by a positive step to a bound finishes. *)
Lemma for_num_up_terminates (St : Type) (body : R -> St -> St) (g bound : R) :
  0 < g ->
  forall (v : R) (s : St), exists fuel s',
    for_num fuel (fun v0 => leb v0 bound) (fun v0 => add v0 g) body v s = Some s'.
Proof.
  intros Hg v s.
  destruct (INR_unbounded ((bound - v) / g)) as [n Hn].
  assert (Hlt : bound - v < INR n * g).
  { apply Rmult_lt_compat_r with (r := g) in Hn; [|exact Hg].
    unfold Rdiv in Hn. rewrite Rmult_assoc, Rinv_l, Rmult_1_r in Hn by lra. lra. }
  clear Hn. exists (S n). revert v s Hlt.
  induction n as [|n IH]; intros v s Hlt; cbn [for_num]; at_R.
  - cbn in Hlt. destruct (Rleb v bound) eqn:E.
    + apply Rleb_true in E. lra.
    + now exists s.
  - destruct (Rleb v bound) eqn:E; [|now exists s].
    apply IH. rewrite S_INR in Hlt. lra.
Qed.

(** A loop that counts down by a positive step to a bound finishes. *)
Lemma for_num_down_terminates (St : Type) (body : R -> St -> St) (g bound : R) :
  0 < g ->
  forall (v : R) (s : St), exists fuel s',
    for_num fuel (fun v0 => leb bound v0) (fun v0 => sub v0 g) body v s = Some s'.
Proof.
  intros Hg v s.
  destruct (INR_unbounded ((v - bound) / g)) as [n Hn].
  assert (Hlt : v - bound < INR n * g).
  { apply Rmult_lt_compat_r with (r := g) in Hn; [|exact Hg].
    unfold Rdiv in Hn. rewrite Rmult_assoc, Rinv_l, Rmult_1_r in Hn by lra. lra. }
  clear Hn. exists (S n). revert v s Hlt.
  induction n as [|n IH]; intros v s Hlt; cbn [for_num]; at_R.
  - cbn in Hlt. destruct (Rleb bound v) eqn:E.
    + apply Rleb_true in E. lra.
    + now exists s.
  - destruct (Rleb bound v) eqn:E; [|now exists s].
    apply IH. rewrite S_INR in Hlt. lra.
Qed.

(** [v % 1] of a non-negative real is its fractional part. *)
Lemma rem_1_frac (v : R) : 0 <= v -> rem v 1 = frac_part v.
Proof.
  intros Hv. cbn. unfold Rrem, Rtrunc, frac_part.
  replace (v / 1) with v by field.
  destruct (Rle_dec 0 v); [ring | contradiction].
Qed.

(** The test of the first loop of [grid], on a non-negative abscissa. *)
Lemma heavy_test (v : R) :
  0 <= v ->
  (ltb (rem v (of_Z 1)) (decimal 1 100) = true <-> within_above_integer v).
Proof.
  intros Hv. change (rem v (of_Z 1)) with (rem v 1).
  rewrite rem_1_frac by exact Hv. at_R. rewrite Rltb_true.
  unfold within_above_integer. split.
  - intros Hfrac. exists (Int_part v).
    destruct (base_Int_part v). unfold frac_part in Hfrac. lra.
  - intros [k [Hlo Hhi]].
    assert (Hk : k = Int_part v) by (apply Int_part_spec; lra).
    unfold frac_part. rewrite <- Hk. lra.
Qed.

(** Each of the drawing helpers adds one stroke, in the current style. *)
Lemma vline_surface {num} `{Number num} (canvas : Canvas num) (px : num) (ctx : Ctx) :
  surface (vline canvas px ctx) =
  surface ctx ++
    [{| stroke_style := strokeStyle ctx; stroke_width := lineWidth ctx;
        stroke_path := [MoveTo px (of_Z 0); LineTo px (height canvas)] |}].
Proof. reflexivity. Qed.

Lemma hline_surface {num} `{Number num} (canvas : Canvas num) (py : num) (ctx : Ctx) :
  surface (hline canvas py ctx) =
  surface ctx ++
    [{| stroke_style := strokeStyle ctx; stroke_width := lineWidth ctx;
        stroke_path := [MoveTo (of_Z 0) py; LineTo (width canvas) py] |}].
Proof. reflexivity. Qed.

(** One round of the first loop draws one grid line, 0.8 wide when the test
    [gx % 1 < 0.01] holds and 0.2 wide when it does not. *)
Lemma grid_right_body_surface {num} `{Number num} (canvas : Canvas num)
    (view : PlotView num) (gx : num) (ctx : Ctx) :
  surface (grid_right_body canvas view gx ctx) =
  surface ctx ++
    [gridline canvas view gx
       (if ltb (rem gx (of_Z 1)) (decimal 1 100) then decimal 8 10 else decimal 2 10)].
Proof.
  unfold grid_right_body.
  destruct (ltb (rem gx (of_Z 1)) (decimal 1 100)); reflexivity.
Qed.

(** A loop whose body only adds strokes only adds strokes. *)
Lemma for_num_appends {num} `{Number num} (cond : num -> bool) (next : num -> num)
    (body : num -> @Ctx num -> @Ctx num) (fuel : nat) (v : num)
    (ctx ctx' : @Ctx num) :
  (forall v0 c, exists more, surface (body v0 c) = surface c ++ more) ->
  for_num fuel cond next body v ctx = Some ctx' ->
  exists more, surface ctx' = surface ctx ++ more.
Proof.
  intros Hbody Hrun.
  destruct (for_num_invariant cond next body
              (fun _ c => exists more, surface c = surface ctx ++ more)
              fuel v ctx ctx') as [_ [Hinv _]]; trivial.
  - intros v0 c [more Hc] _. destruct (Hbody v0 c) as [more' Hc'].
    exists (more ++ more'). now rewrite Hc', Hc, app_assoc.
  - exists []. now rewrite app_nil_r.
Qed.

(** A loop that draws one line per round in the current width leaves the
    width alone and adds strokes of that width only: the three loops of [grid]
    after the first. *)
Lemma for_num_plain_lines {num} `{Number num} (cond : num -> bool) (next : num -> num)
    (line : num -> @Ctx num -> @Ctx num) (fuel : nat) (v : num)
    (ctx ctx' : @Ctx num) :
  (forall v0 c,
     lineWidth (line v0 c) = lineWidth c /\
     exists st, surface (line v0 c) = surface c ++ [st] /\
                stroke_width st = lineWidth c) ->
  for_num fuel cond next line v ctx = Some ctx' ->
  lineWidth ctx' = lineWidth ctx /\
  exists more,
    surface ctx' = surface ctx ++ more /\
    Forall (fun st => stroke_width st = lineWidth ctx) more.
Proof.
  intros Hline Hrun.
  apply (for_num_invariant _ _ _
           (fun _ c => lineWidth c = lineWidth ctx /\
                       exists more, surface c = surface ctx ++ more /\
                         Forall (fun st => stroke_width st = lineWidth ctx) more))
    in Hrun; [destruct Hrun as [_ [Hinv _]]; exact Hinv | | ].
  - intros v0 c [Hwidth [more [Hsurf Hall]]] _.
    destruct (Hline v0 c) as [Hkeep [st [Hadd Hst]]].
    split; [congruence|].
    exists (more ++ [st]). split.
    + now rewrite Hadd, Hsurf, app_assoc.
    + apply Forall_app. split; [exact Hall|]. constructor; [congruence | constructor].
  - split; [reflexivity|]. exists []. split; [now rewrite app_nil_r | constructor].
Qed.

(** The lines of the first loop: every abscissa is positive, and its line is
    0.8 wide exactly when the abscissa is within 0.01 above an integer. *)
Lemma grid_right_lines (fuel : nat) (canvas : Canvas R) (view : PlotView R)
    (g : R) (ctx ctx' : Ctx) :
  0 < g ->
  grid_right fuel canvas view g ctx = Some ctx' ->
  exists lines : list (R * R),
    surface ctx' =
      surface ctx ++ List.map (fun l => gridline canvas view (fst l) (snd l)) lines /\
    Forall (fun l => 0 < fst l <= x (bottom_right view) /\
                     (snd l = 8 / 10 <-> within_above_integer (fst l)) /\
                     (snd l = 2 / 10 <-> ~ within_above_integer (fst l))) lines.
Proof.
  intros Hg Hrun. unfold grid_right in Hrun.
  pose (good := fun l : R * R =>
          0 < fst l <= x (bottom_right view) /\
          (snd l = 8 / 10 <-> within_above_integer (fst l)) /\
          (snd l = 2 / 10 <-> ~ within_above_integer (fst l))).
  pose (Inv := fun (v : R) (c : @Ctx R) =>
          0 < v /\ exists lines,
            surface c = surface ctx ++
              List.map (fun l => gridline canvas view (fst l) (snd l)) lines /\
            Forall good lines).
  apply (for_num_invariant _ _ _ Inv) in Hrun;
    [destruct Hrun as [_ [[_ Hlines] _]]; exact Hlines | | ]; unfold Inv.
  - intros v c [Hv [lines [Hsurf Hall]]] Hcond. at_R. apply Rleb_true in Hcond.
    split; [lra|].
    rewrite grid_right_body_surface, Hsurf, <- app_assoc.
    pose proof (heavy_test v (Rlt_le _ _ Hv)) as Htest.
    destruct (ltb (rem v (of_Z 1)) (decimal 1 100)) eqn:E.
    + exists (lines ++ [(v, 8 / 10)]). rewrite map_app. split; [reflexivity|].
      apply Forall_app. split; [exact Hall|]. constructor; [|constructor].
      unfold good; cbn [fst snd]. split; [lra|].
      assert (within_above_integer v) by now apply Htest.
      split; split; intros; trivial; try contradiction. lra.
    + exists (lines ++ [(v, 2 / 10)]). rewrite map_app. split; [reflexivity|].
      apply Forall_app. split; [exact Hall|]. constructor; [|constructor].
      unfold good; cbn [fst snd]. split; [lra|].
      assert (~ within_above_integer v).
      { intros Hw. apply Htest in Hw. congruence. }
      split; split; intros; trivial; try contradiction. lra.
  - split; [exact Hg|]. exists []. cbn. now rewrite app_nil_r.
Qed.

(** With a granularity of 0.5 and a right edge at 1 or beyond, the first loop
    starts with a 0.2 wide line at 0.5 and a 0.8 wide line at 1. *)
Lemma grid_right_half_steps (fuel : nat) (canvas : Canvas R) (view : PlotView R)
    (ctx ctx' : Ctx) :
  1 <= x (bottom_right view) ->
  grid_right fuel canvas view (5 / 10) ctx = Some ctx' ->
  exists more,
    surface ctx' =
      surface ctx ++
        gridline canvas view (5 / 10) (2 / 10) :: gridline canvas view 1 (8 / 10) :: more.
Proof.
  intros Hedge Hrun. unfold grid_right in Hrun.
  destruct fuel as [|[|fuel]]; cbn [for_num] in Hrun; at_R.
  - discriminate.
  - destruct (Rleb (5 / 10) (x (bottom_right view))) eqn:E; [discriminate|].
    apply Rleb_false in E. lra.
  - assert (E1 : Rleb (5 / 10) (x (bottom_right view)) = true)
      by (apply Rleb_true; lra).
    assert (E2 : Rleb (5 / 10 + 5 / 10) (x (bottom_right view)) = true)
      by (apply Rleb_true; lra).
    rewrite E1, E2 in Hrun.
    apply for_num_appends in Hrun.
    2:{ intros v0 c. rewrite grid_right_body_surface. now eexists. }
    destruct Hrun as [more Hsurf]. exists more. rewrite Hsurf.
    rewrite !grid_right_body_surface, <- !app_assoc. cbn [app].
    assert (T1 : ltb (rem (5 / 10) (of_Z 1)) (decimal 1 100) = false).
    { destruct (ltb _ _) eqn:E; [|reflexivity].
      apply heavy_test in E; [|lra]. destruct E as [k [Hlo Hhi]].
      assert (k < 1)%Z by (apply lt_IZR; lra).
      assert (IZR k <= 0) by (apply (IZR_le k 0); lia). lra. }
    assert (T2 : ltb (rem (5 / 10 + 5 / 10) (of_Z 1)) (decimal 1 100) = true).
    { apply heavy_test; [lra|]. exists 1%Z. lra. }
    rewrite T1, T2. at_R.
    replace (5 / 10 + 5 / 10) with 1 by lra. reflexivity.
Qed.

(** [grid] draws the two axes and runs the first loop; whatever the three
    other loops draw comes after the lines of the first, and is 0.2 wide. *)
Lemma grid_surface {num} `{Number num} (fuel : nat) (canvas : Canvas num)
    (view : PlotView num) (g : num) (ctx ctx' : Ctx) :
  grid fuel canvas view g ctx = Some ctx' ->
  exists (c1 c2 : Ctx) (axes others : list Stroke),
    surface c1 = surface ctx ++ axes /\
    grid_right fuel canvas view g c1 = Some c2 /\
    surface ctx' = surface c2 ++ others /\
    Forall (fun st => stroke_width st = decimal 2 10) others.
Proof.
  unfold grid. cbv zeta.
  set (c1 := set_lineWidth (decimal 2 10) _).
  destruct (grid_right fuel canvas view g c1) as [c2|] eqn:Eright; [|discriminate].
  cbn [bind].
  set (c2' := set_lineWidth (decimal 2 10) (set_strokeStyle translucent c2)).
  destruct (grid_left fuel canvas view g c2') as [c3|] eqn:Eleft; [|discriminate].
  cbn [bind].
  destruct (grid_up fuel canvas view g c3) as [c4|] eqn:Eup; [|discriminate].
  cbn [bind]. intros Edown.
  apply for_num_plain_lines in Eleft;
    [|intros; split; [reflexivity | rewrite vline_surface; now eexists]].
  apply for_num_plain_lines in Eup;
    [|intros; split; [reflexivity | rewrite hline_surface; now eexists]].
  apply for_num_plain_lines in Edown;
    [|intros; split; [reflexivity | rewrite hline_surface; now eexists]].
  destruct Eleft as [W3 [m3 [E3 A3]]], Eup as [W4 [m4 [E4 A4]]],
    Edown as [W5 [m5 [E5 A5]]].
  assert (W2 : lineWidth c2' = decimal 2 10) by reflexivity.
  rewrite W4, W3, W2 in A5. rewrite W3, W2 in A4. rewrite W2 in A3.
  exists c1, c2. eexists. exists (m3 ++ m4 ++ m5). split; [|split; [|split]].
  - subst c1. cbn [surface set_lineWidth set_strokeStyle].
    rewrite vline_surface, hline_surface, <- app_assoc. reflexivity.
  - exact Eright.
  - rewrite E5, E4, E3. subst c2'. cbn [surface set_lineWidth set_strokeStyle].
    now rewrite <- !app_assoc.
  - repeat (apply Forall_app; split); assumption.
Qed.

(** With a positive granularity all four loops finish: [grid] returns. *)
Lemma grid_terminates (canvas : Canvas R) (view : PlotView R) (g : R) (ctx : Ctx) :
  0 < g -> exists fuel ctx', grid fuel canvas view g ctx = Some ctx'.
Proof.
  intros Hg. unfold grid. cbv zeta.
  set (c1 := set_lineWidth (decimal 2 10) _).
  destruct (for_num_up_terminates _ (grid_right_body canvas view) g
              (x (bottom_right view)) Hg g c1) as [f1 [c2 E1]].
  set (c2' := set_lineWidth (decimal 2 10) (set_strokeStyle translucent c2)).
  destruct (for_num_down_terminates _
              (fun gx c => vline canvas (x (project canvas view {| x := gx; y := 0 |})) c)
              g (x (top_left view)) Hg g c2') as [f2 [c3 E2]].
  destruct (for_num_up_terminates _
              (fun gy c => hline canvas (y (project canvas view {| x := 0; y := gy |})) c)
              g (y (top_left view)) Hg g c3) as [f3 [c4 E3]].
  destruct (for_num_down_terminates _
              (fun gy c => hline canvas (y (project canvas view {| x := 0; y := gy |})) c)
              g (y (bottom_right view)) Hg g c4) as [f4 [c5 E4]].
  exists (f1 + f2 + f3 + f4)%nat, c5.
  unfold grid_right, grid_left, grid_up, grid_down.
  replace (f1 + f2 + f3 + f4)%nat with (f1 + (f2 + f3 + f4))%nat at 1 by lia.
  rewrite (for_num_more_fuel _ _ _ _ _ _ _ _ E1). cbn [bind]. fold c2'.
  replace (f1 + f2 + f3 + f4)%nat with (f2 + (f1 + f3 + f4))%nat at 1 by lia.
  rewrite (for_num_more_fuel _ _ _ _ _ _ _ _ E2). cbn [bind].
  replace (f1 + f2 + f3 + f4)%nat with (f3 + (f1 + f2 + f4))%nat at 1 by lia.
  rewrite (for_num_more_fuel _ _ _ _ _ _ _ _ E3). cbn [bind].
  replace (f1 + f2 + f3 + f4)%nat with (f4 + (f1 + f2 + f3))%nat by lia.
  exact (for_num_more_fuel _ _ _ _ _ _ _ _ E4).
Qed.

(** C8: with a granularity of 0.5, on a view whose right edge is at 1 or
    beyond, [grid] returns, and among its strokes the grid line at plot
    abscissa 0.5 is drawn 0.2 wide and, right after it, the one at 1.0 is
    drawn 0.8 wide; what the three other loops draw, the second line at 0.5
    included, is 0.2 wide.  In general every line of the positive-x loop is at
    a positive abscissa and is drawn 0.8 wide exactly when that abscissa is
    within 0.01 above an integer, and 0.2 wide otherwise. *)
Theorem grid_major_lines (canvas : Canvas R) (view : PlotView R) (ctx : Ctx) :
  1 <= x (bottom_right view) ->
  (exists fuel ctx', grid fuel canvas view (5 / 10) ctx = Some ctx') /\
  (forall fuel ctx',
     grid fuel canvas view (5 / 10) ctx = Some ctx' ->
     exists before rest others,
       surface ctx' =
         before ++ gridline canvas view (5 / 10) (2 / 10)
                :: gridline canvas view 1 (8 / 10) :: rest ++ others /\
       Forall (fun st => stroke_width st = 2 / 10) others) /\
  (forall fuel g ctx0 ctx',
     0 < g ->
     grid_right fuel canvas view g ctx0 = Some ctx' ->
     exists lines : list (R * R),
       surface ctx' =
         surface ctx0 ++ List.map (fun l => gridline canvas view (fst l) (snd l)) lines /\
       Forall (fun l => 0 < fst l <= x (bottom_right view) /\
                        (snd l = 8 / 10 <-> within_above_integer (fst l)) /\
                        (snd l = 2 / 10 <-> ~ within_above_integer (fst l))) lines).
Proof.
  intros Hedge. split; [|split].
  - apply grid_terminates. lra.
  - intros fuel ctx' Hrun.
    destruct (grid_surface _ _ _ _ _ _ Hrun)
      as (c1 & c2 & axes & others & E1 & Eright & E2 & Hlight).
    destruct (grid_right_half_steps _ _ _ _ _ Hedge Eright) as [rest Hsurf].
    exists (surface ctx ++ axes), rest, others. split; [|exact Hlight].
    rewrite E2, Hsurf, E1, <- !app_assoc. reflexivity.
  - intros fuel g ctx0 ctx' Hg Hrun. exact (grid_right_lines fuel _ _ g _ _ Hg Hrun).
Qed.

Lemma grid_major_lines_witness :
  1 <= x (bottom_right initial_view) /\
  exists fuel ctx',
    grid fuel canvas_800x600 initial_view (5 / 10)
      {| strokeStyle := "black"; lineWidth := 1; path := []; surface := [] |}
    = Some ctx'.
Proof.
  assert (Hedge : 1 <= x (bottom_right (@initial_view R _))).
  { unfold bottom_right, top_left, initial_view; at_R; cbn. lra. }
  split; [exact Hedge|].
  exact (proj1 (grid_major_lines canvas_800x600 initial_view
                  {| strokeStyle := "black"; lineWidth := 1; path := []; surface := [] |}
                  Hedge)).
Defined.

End Grid.

(** ** The code run in binary64 *)

Section FloatRuns.
Local Open Scope float_scope.

Example map_float_run : map 450 0 800 0 4 = 2.25.
Proof. vm_compute. reflexivity. Qed.

Example decimal_literals :
  (decimal 1 10, decimal 1 100, decimal 2 10, decimal 8 10, decimal 5 10)
  = (0.1, 0.01, 0.2, 0.8, 0.5).
Proof. vm_compute. reflexivity. Qed.

Example float_rem_run :
  (float_rem 5.5 1, float_rem (-5.5) 2, float_rem 1 0, float_rem 0.3 0.1)
  = (0.5, -1.5, nan, 0.09999999999999998).
Proof. vm_compute. reflexivity. Qed.

(** C1, at the failing input [integrate(x => 1, 1, 2, 2)]: the step between the
    two samples is 1 and the specification's sum is [1*1 + 1*1 = 2]; the code
    multiplies by [map(1, 0, 1, 1, 2) = 2] and returns 4, over the reals and in
    binary64 alike. *)
Theorem integrate_width_counts_start :
  integrate (fun _ : R => 1%R) 1%R 2%R 2 = 4%R /\
  spec_integrate (fun _ : R => 1%R) 1%R 2%R 2 = 2%R /\
  integrate (fun _ : float => 1) 1 2 2 = 4 /\
  spec_integrate (fun _ : float => 1) 1 2 2 = 2.
Proof.
  split; [|split; [|split]].
  - unfold integrate, for_lt, map; at_R; cbn. field.
  - unfold spec_integrate, spec_step, map; at_R; cbn. field.
  - vm_compute. reflexivity.
  - vm_compute. reflexivity.
Qed.

(** C7, as amended: with a sample count of 0 nothing is raised and nothing
    non-finite is produced: the sampler returns the empty sequence and
    [integrate] returns 0, a finite number, for every [fn], [start], [end]. *)
Theorem zero_samples_finite (f : MathFunction) (a b : float) :
  sample f a b 0 = [] /\
  integrate (fn f) a b 0 = 0 /\
  PrimFloat.is_finite (integrate (fn f) a b 0) = true.
Proof.
  repeat split; vm_compute; reflexivity.
Qed.

(** C7, counterexample: [integrate(x => x, 0, 1, 0)] is 0, which is finite. *)
Lemma integrate_zero_samples_is_finite :
  integrate (fun v : float => v) 0 1 0 = 0 /\
  PrimFloat.is_finite (integrate (fun v : float => v) 0 1 0) = true /\
  PrimFloat.is_nan (integrate (fun v : float => v) 0 1 0) = false /\
  PrimFloat.is_infinity (integrate (fun v : float => v) 0 1 0) = false.
Proof.
  repeat split; vm_compute; reflexivity.
Qed.

(** The non-finite results come with a sample count of 1, where the mapper
    divides by [samples - 1 = 0]. *)
Example one_sample_is_not_finite :
  sample {| fn := fun v : float => v |} 0 1 1 = [Some {| x := nan; y := nan |}] /\
  integrate (fun _ : float => 1) 0 1 1 = infinity.
Proof.
  split; vm_compute; reflexivity.
Qed.

(** C2 on a surface of width 0, in binary64: the abscissa comes back as NaN. *)
Example roundtrip_on_flat_surface_is_nan :
  let canvas := {| width := 0; height := 600 |} in
  unproject canvas initial_view (project canvas initial_view {| x := 1; y := 3 |})
  = {| x := nan; y := 3 |}.
Proof. vm_compute. reflexivity. Qed.

(** C6, counterexample: in binary64, the arithmetic the program runs with,
    [map(1, 0, 1, 0.2, 0.9)] is 0.8999999999999999, which is not [to_max = 0.9]:
    [(0.9 - 0.2) + 0.2] is rounded twice.  All four arguments are finite and
    [from_min <> from_max]. *)
Lemma map_endpoint_is_rounded :
  map 1 0 1 0.2 0.9 = 0.8999999999999999 /\
  PrimFloat.eqb (map 1 0 1 0.2 0.9) 0.9 = false /\
  PrimFloat.eqb 0 1 = false /\
  (PrimFloat.is_finite 0 && PrimFloat.is_finite 1 &&
   PrimFloat.is_finite 0.2 && PrimFloat.is_finite 0.9)%bool = true.
Proof. repeat split; vm_compute; reflexivity. Qed.

(** The other end fails too when the target range overflows, and a small
    [to_max] is absorbed by a large [to_min]. *)
Example map_endpoint_overflows :
  map 0 0 1 (-1e308) 1e308 = nan /\ map 1 0 1 1e16 1 = 0.
Proof. split; vm_compute; reflexivity. Qed.

(** C5, counterexample: in binary64 the last abscissa of
    [sample(v => v, 0.2, 0.9, 3)] is 0.8999999999999999, not [b = 0.9]. *)
Lemma sample_last_is_rounded :
  sample {| fn := fun v : float => v |} 0.2 0.9 3 =
    [Some {| x := 0.2; y := 0.2 |};
     Some {| x := 0.55000000000000004; y := 0.55000000000000004 |};
     Some {| x := 0.8999999999999999; y := 0.8999999999999999 |}] /\
  PrimFloat.eqb 0.8999999999999999 0.9 = false.
Proof. split; vm_compute; reflexivity. Qed.

(** C9, counterexample: in binary64, from the positive size (3, 7) a wheel
    event with [deltaY = -1250] leaves width and height at about -4.4e-16 and
    -8.9e-16, not at 0: [w * 0.1] is rounded before it is scaled back. *)
Lemma wheel_zero_is_rounded :
  size (app_view (on_wheel (-1250)
    {| app_view := {| center := {| x := 2; y := 0 |}; size := {| w := 3; h := 7 |} |};
       app_dragging := None; app_canvas := canvas_800x600; app_cursor := "" |}))
  = {| w := -4.4408920985006262e-16; h := -8.8817841970012523e-16 |} /\
  PrimFloat.eqb (-4.4408920985006262e-16) 0 = false /\
  PrimFloat.eqb (-8.8817841970012523e-16) 0 = false.
Proof. repeat split; vm_compute; reflexivity. Qed.

(** From (0.7, 0.3) the same event even leaves the width positive. *)
Example wheel_zero_stays_positive :
  size (app_view (on_wheel (-1250)
    {| app_view := {| center := {| x := 2; y := 0 |}; size := {| w := 0.7; h := 0.3 |} |};
       app_dragging := None; app_canvas := canvas_800x600; app_cursor := "" |}))
  = {| w := 1.1102230246251565e-16; h := 0 |}.
Proof. vm_compute. reflexivity. Qed.

(** In binary64 a non-zero surface is not enough either: a view whose width is
    below the spacing of the doubles around its center has both edges rounded
    to the same abscissa, and [project] divides by 0. *)
Example roundtrip_on_collapsed_view_is_nan :
  let view := {| center := {| x := 1e20; y := 0 |}; size := {| w := 1; h := 8 |} |} in
  unproject canvas_800x600 view (project canvas_800x600 view {| x := 1e20; y := 3 |})
  = {| x := nan; y := 3 |}.
Proof. vm_compute. reflexivity. Qed.

(** A run of the sampler: five points of the square function over [0, 4]. *)
Example sample_run :
  sample {| fn := fun v : float => v * v |} 0 4 5
  = [Some {| x := 0; y := 0 |}; Some {| x := 1; y := 1 |}; Some {| x := 2; y := 4 |};
     Some {| x := 3; y := 9 |}; Some {| x := 4; y := 16 |}].
Proof. vm_compute. reflexivity. Qed.

(** The drag scenario of C3 in binary64: the center moves from (2, 0) to
    (1.75, 0). *)
Example drag_scenario_run :
  center (app_view
    (run (initial_app canvas_800x600)
       [PointerDown 1 {| x := 400; y := 300 |};
        PointerMove 1 {| x := 450; y := 300 |}]))
  = {| x := 1.75; y := 0 |}.
Proof. vm_compute. reflexivity. Qed.

(** The wheel scenario of C4 in binary64: the doubles nearest to 4.4 and 8.8. *)
Example wheel_scenario_run :
  size (app_view (on_wheel 125 (initial_app canvas_800x600)))
  = {| w := 4.4; h := 8.8 |}.
Proof. vm_compute. reflexivity. Qed.

(** The zoom of C9 on the initial size in binary64: [deltaY = -1250] gives
    exactly (0, 0), and [deltaY = -2500] gives (-4, -8). *)
Example wheel_zero_run :
  size (app_view (on_wheel (-1250) (initial_app canvas_800x600)))
    = {| w := 0; h := 0 |} /\
  size (app_view (on_wheel (-2500) (initial_app canvas_800x600)))
    = {| w := -4; h := -8 |}.
Proof. split; vm_compute; reflexivity. Qed.

(** The grid scenario of C8 in binary64: on the initial view, whose right edge
    is at 4, the first loop draws eight lines, every second one 0.8 wide. *)
Example grid_scenario_run :
  option_map (fun ctx => List.map stroke_width (surface ctx))
    (grid_right 9 canvas_800x600 initial_view 0.5
       {| strokeStyle := "black"; lineWidth := 1; path := []; surface := [] |})
  = Some [0.2; 0.8; 0.2; 0.8; 0.2; 0.8; 0.2; 0.8].
Proof. vm_compute. reflexivity. Qed.

End FloatRuns.

(** * Further properties of the code *)

(** ** The mapper and the projection *)

Section ProjectionGeometry.
(* Here [number] is read as a real number. *)
Local Open Scope R_scope.

(** X1: mapping back with the two ranges exchanged undoes [map], as long as
    neither range is empty. *)
Theorem map_inverse (v fmin fmax tmin tmax : R) :
  fmin <> fmax -> tmin <> tmax ->
  map (map v fmin fmax tmin tmax) tmin tmax fmin fmax = v.
Proof.
  intros Hf Ht. rewrite !map_R. field. split; lra.
Qed.

Lemma map_inverse_witness :
  (0 <> 800 /\ 0 <> 4) /\ map (map 450 0 800 0 4) 0 4 0 800 = 450.
Proof.
  split; [split; lra | apply map_inverse; lra].
Defined.

(** The screen coordinates of a plot-space point, in closed form. *)
Lemma project_R (canvas : Canvas R) (view : PlotView R) (p : Point R) :
  w (size view) <> 0 -> h (size view) <> 0 ->
  x (project canvas view p) =
    (x p - x (center view) + w (size view) / 2) * (width canvas / w (size view)) /\
  y (project canvas view p) =
    (y (center view) + h (size view) / 2 - y p) * (height canvas / h (size view)).
Proof.
  intros Hw Hh. destruct view as [[cx cy] [vw vh]], canvas as [W H], p as [px py].
  cbn in Hw, Hh. unfold project, map; at_R; cbn. split; field; lra.
Qed.

(** X2: on a view and a surface of non-zero size the projection is one-to-one
    and onto: every screen point [s] is the projection of [unproject(s)], and
    of no other plot-space point. *)
Theorem project_bijective (canvas : Canvas R) (view : PlotView R) (s : Point R) :
  w (size view) <> 0 -> h (size view) <> 0 ->
  width canvas <> 0 -> height canvas <> 0 ->
  project canvas view (unproject canvas view s) = s /\
  (forall p, project canvas view p = s -> p = unproject canvas view s).
Proof.
  intros Hw Hh HW HH. split; [now apply project_unproject|].
  intros p <-.
  destruct view as [[cx cy] [vw vh]], canvas as [W H], p as [px py].
  cbn in Hw, Hh, HW, HH.
  unfold unproject, project, top_left, bottom_right, map; at_R; cbn.
  f_equal; field; lra.
Qed.

Lemma project_bijective_witness :
  let s := {| x := 450; y := 300 |} in
  (w (size initial_view) <> 0 /\ h (size initial_view) <> 0 /\
   width canvas_800x600 <> 0 /\ height canvas_800x600 <> 0) /\
  project canvas_800x600 initial_view (unproject canvas_800x600 initial_view s) = s.
Proof.
  intros s.
  assert (Hw : w (size (@initial_view R _)) <> 0) by (cbn; lra).
  assert (Hh : h (size (@initial_view R _)) <> 0) by (cbn; lra).
  assert (HW : width (@canvas_800x600 R _) <> 0) by (cbn; lra).
  assert (HH : height (@canvas_800x600 R _) <> 0) by (cbn; lra).
  split; [repeat split; assumption|].
  exact (proj1 (project_bijective canvas_800x600 initial_view s Hw Hh HW HH)).
Defined.

(** X3: [project] puts the top-left corner of the view on the origin of the
    surface, its bottom-right corner on the opposite corner of the surface,
    and its center on the middle of the surface. *)
Theorem project_landmarks (canvas : Canvas R) (view : PlotView R) :
  w (size view) <> 0 -> h (size view) <> 0 ->
  project canvas view (top_left view) = {| x := 0; y := 0 |} /\
  project canvas view (bottom_right view) =
    {| x := width canvas; y := height canvas |} /\
  project canvas view (center view) =
    {| x := width canvas / 2; y := height canvas / 2 |}.
Proof.
  intros Hw Hh. destruct view as [[cx cy] [vw vh]]; cbn in Hw, Hh.
  unfold project, top_left, bottom_right, map; at_R; cbn.
  repeat split; f_equal; field; lra.
Qed.

Lemma project_landmarks_witness :
  (w (size initial_view) <> 0 /\ h (size initial_view) <> 0) /\
  project canvas_800x600 initial_view (center initial_view) =
    {| x := width canvas_800x600 / 2; y := height canvas_800x600 / 2 |}.
Proof.
  assert (Hw : w (size (@initial_view R _)) <> 0) by (cbn; lra).
  assert (Hh : h (size (@initial_view R _)) <> 0) by (cbn; lra).
  split; [split; assumption|].
  exact (proj2 (proj2 (project_landmarks canvas_800x600 initial_view Hw Hh))).
Defined.

(** X4: on a view and a surface of positive size [project] keeps the order of the
    abscissas and reverses the order of the ordinates: plot-space y grows
    upwards, screen-space y downwards. *)
Theorem project_orientation (canvas : Canvas R) (view : PlotView R) (p q : Point R) :
  0 < w (size view) -> 0 < h (size view) ->
  0 < width canvas -> 0 < height canvas ->
  (x p < x q <-> x (project canvas view p) < x (project canvas view q)) /\
  (y p < y q <-> y (project canvas view q) < y (project canvas view p)).
Proof.
  intros Hw Hh HW HH.
  destruct (project_R canvas view p) as [Epx Epy]; try lra.
  destruct (project_R canvas view q) as [Eqx Eqy]; try lra.
  rewrite Epx, Epy, Eqx, Eqy.
  assert (Hkx : 0 < width canvas / w (size view)) by now apply Rdiv_lt_0_compat.
  assert (Hky : 0 < height canvas / h (size view)) by now apply Rdiv_lt_0_compat.
  split; split; intros Hlt; nra.
Qed.

Lemma project_orientation_witness :
  let p := {| x := 1; y := 1 |} in
  let q := {| x := 3; y := 2 |} in
  (0 < w (size initial_view) /\ 0 < h (size initial_view) /\
   0 < width canvas_800x600 /\ 0 < height canvas_800x600) /\
  y (project canvas_800x600 initial_view q) < y (project canvas_800x600 initial_view p).
Proof.
  intros p q.
  assert (Hw : 0 < w (size (@initial_view R _))) by (cbn; lra).
  assert (Hh : 0 < h (size (@initial_view R _))) by (cbn; lra).
  assert (HW : 0 < width (@canvas_800x600 R _)) by (cbn; lra).
  assert (HH : 0 < height (@canvas_800x600 R _)) by (cbn; lra).
  split; [repeat split; assumption|].
  apply (proj2 (project_orientation canvas_800x600 initial_view p q Hw Hh HW HH)).
  cbn. lra.
Defined.

(** X5: on a view and a surface of positive size a plot-space point lies in the
    view's rectangle exactly when its projection lies on the surface. *)
Theorem project_visible (canvas : Canvas R) (view : PlotView R) (p : Point R) :
  0 < w (size view) -> 0 < h (size view) ->
  0 < width canvas -> 0 < height canvas ->
  (x (top_left view) <= x p <= x (bottom_right view) /\
   y (bottom_right view) <= y p <= y (top_left view))
  <->
  (0 <= x (project canvas view p) <= width canvas /\
   0 <= y (project canvas view p) <= height canvas).
Proof.
  intros Hw Hh HW HH.
  destruct (project_R canvas view p) as [Epx Epy]; try lra.
  rewrite Epx, Epy.
  destruct (corners_R view) as [-> ->]. cbn [x y].
  set (vw := w (size view)) in *. set (vh := h (size view)) in *.
  set (W := width canvas) in *. set (H := height canvas) in *.
  assert (Hkx : 0 < W / vw) by now apply Rdiv_lt_0_compat.
  assert (Hky : 0 < H / vh) by now apply Rdiv_lt_0_compat.
  assert (EW : W = vw * (W / vw)) by (field; lra).
  assert (EH : H = vh * (H / vh)) by (field; lra).
  set (kx := W / vw) in *. set (ky := H / vh) in *.
  split; intros [[H1 H2] [H3 H4]]; repeat split; nra.
Qed.

Lemma project_visible_witness :
  let p := {| x := 1; y := 3 |} in
  (0 < w (size initial_view) /\ 0 < h (size initial_view) /\
   0 < width canvas_800x600 /\ 0 < height canvas_800x600) /\
  (0 <= x (project canvas_800x600 initial_view p) <= width canvas_800x600 /\
   0 <= y (project canvas_800x600 initial_view p) <= height canvas_800x600).
Proof.
  intros p.
  assert (Hw : 0 < w (size (@initial_view R _))) by (cbn; lra).
  assert (Hh : 0 < h (size (@initial_view R _))) by (cbn; lra).
  assert (HW : 0 < width (@canvas_800x600 R _)) by (cbn; lra).
  assert (HH : 0 < height (@canvas_800x600 R _)) by (cbn; lra).
  split; [repeat split; assumption|].
  apply (proj1 (project_visible canvas_800x600 initial_view p Hw Hh HW HH)).
  unfold top_left, bottom_right, initial_view; at_R; cbn. lra.
Defined.

End ProjectionGeometry.

Section UnprojectGeometry.
(* Here [number] is read as a real number. *)
Local Open Scope R_scope.

(** X6: on a surface that is not empty [unproject] sends the origin of the surface
    to the top-left corner of the view, the opposite corner of the surface to
    its bottom-right corner, and the middle of the surface to its center,
    whatever the size of the view, zero or negative included. *)
Theorem unproject_landmarks (canvas : Canvas R) (view : PlotView R) :
  width canvas <> 0 -> height canvas <> 0 ->
  unproject canvas view {| x := 0; y := 0 |} = top_left view /\
  unproject canvas view {| x := width canvas; y := height canvas |}
    = bottom_right view /\
  unproject canvas view {| x := width canvas / 2; y := height canvas / 2 |}
    = center view.
Proof.
  intros HW HH. destruct view as [[cx cy] [vw vh]], canvas as [W H].
  cbn in HW, HH.
  unfold unproject, top_left, bottom_right, map; at_R; cbn.
  repeat split; f_equal; field; lra.
Qed.

Lemma unproject_landmarks_witness :
  (width canvas_800x600 <> 0 /\ height canvas_800x600 <> 0) /\
  unproject canvas_800x600 initial_view {| x := 800 / 2; y := 600 / 2 |}
    = {| x := 2; y := 0 |}.
Proof.
  assert (HW : width (@canvas_800x600 R _) <> 0) by (cbn; lra).
  assert (HH : height (@canvas_800x600 R _) <> 0) by (cbn; lra).
  split; [split; assumption|].
  exact (proj2 (proj2 (unproject_landmarks canvas_800x600 initial_view HW HH))).
Defined.

End UnprojectGeometry.

(** ** More on the sampler and the integrator *)

Section SamplingLaws.
(* Here [number] is read as a real number. *)
Local Open Scope R_scope.

(** What the slot [i] of a sample holds. *)
Lemma sample_nth (f : MathFunction) (a b : R) (n i : nat) (p : Point R) :
  nth_error (sample f a b n) i = Some (Some p) ->
  (i < n)%nat /\
  x p = map (of_nat i) 0 (of_nat n - 1) a b /\ y p = fn f (x p).
Proof.
  rewrite sample_points, (nth_error_map (fun i => Some _)), nth_error_seq.
  destruct (Nat.ltb_spec i n) as [Hi|Hi]; cbn; [|discriminate].
  intros [= <-]. cbn. repeat split. exact Hi.
Qed.

(** X7: the points of a sample lie on the graph of the function; two consecutive
    abscissas are [(b - a) / (n - 1)] apart; and when [a <= b] every abscissa
    lies between [a] and [b]. *)
Theorem sample_evenly_spaced (f : MathFunction) (a b : R) (n : nat) :
  (2 <= n)%nat ->
  (forall i p, nth_error (sample f a b n) i = Some (Some p) -> y p = fn f (x p)) /\
  (forall i p q,
     nth_error (sample f a b n) i = Some (Some p) ->
     nth_error (sample f a b n) (S i) = Some (Some q) ->
     x q - x p = (b - a) / (INR n - 1)) /\
  (a <= b ->
   forall i p, nth_error (sample f a b n) i = Some (Some p) -> a <= x p <= b).
Proof.
  intros Hn.
  assert (Hn' : 2 <= INR n) by (apply (le_INR 2); exact Hn).
  split; [|split].
  - intros i p Hp. now destruct (sample_nth _ _ _ _ _ _ Hp) as (_ & _ & Hy).
  - intros i p q Hp Hq.
    destruct (sample_nth _ _ _ _ _ _ Hp) as (_ & -> & _).
    destruct (sample_nth _ _ _ _ _ _ Hq) as (_ & -> & _).
    rewrite !sample_abscissa by exact Hn. rewrite S_INR. field. lra.
  - intros Hab i p Hp.
    destruct (sample_nth _ _ _ _ _ _ Hp) as (Hi & -> & _).
    rewrite sample_abscissa by exact Hn.
    assert (Hi' : INR i <= INR n - 1).
    { replace (INR n - 1) with (INR (n - 1)) by (rewrite minus_INR by lia; cbn; lra).
      apply le_INR. lia. }
    assert (0 <= INR i) by apply pos_INR.
    assert (Hstep : 0 <= (b - a) / (INR n - 1)).
    { apply Rmult_le_pos; [lra|]. apply Rlt_le, Rinv_0_lt_compat. lra. }
    split; [nra|].
    assert (INR i * ((b - a) / (INR n - 1)) <= (INR n - 1) * ((b - a) / (INR n - 1)))
      by (apply Rmult_le_compat_r; assumption).
    replace ((INR n - 1) * ((b - a) / (INR n - 1))) with (b - a) in * by (field; lra).
    lra.
Qed.

Lemma sample_evenly_spaced_witness :
  let f := {| fn := fun v : R => v * v |} in
  (2 <= 5)%nat /\
  forall i p, nth_error (sample f 0 4 5) i = Some (Some p) -> 0 <= x p <= 4.
Proof.
  intros f. split; [lia|].
  assert (Hn : (2 <= 5)%nat) by lia.
  apply (proj2 (proj2 (sample_evenly_spaced f 0 4 5 Hn))). lra.
Defined.

Lemma fold_left_sum_split (F G : nat -> R) (l : list nat) (a1 a2 : R) :
  fold_left (fun acc i => acc + (F i + G i)) l (a1 + a2) =
  fold_left (fun acc i => acc + F i) l a1 + fold_left (fun acc i => acc + G i) l a2.
Proof.
  revert a1 a2. induction l as [|i l IH]; intros a1 a2; cbn; [reflexivity|].
  rewrite <- IH. f_equal. ring.
Qed.

Lemma fold_left_sum_scale (c : R) (F : nat -> R) (l : list nat) (a0 : R) :
  fold_left (fun acc i => acc + c * F i) l (c * a0) =
  c * fold_left (fun acc i => acc + F i) l a0.
Proof.
  revert a0. induction l as [|i l IH]; intros a0; cbn; [reflexivity|].
  rewrite <- IH. f_equal. ring.
Qed.

Lemma fold_left_sum_const (k : R) (l : list nat) (a0 : R) :
  fold_left (fun acc _ => acc + k) l a0 = a0 + INR (length l) * k.
Proof.
  revert a0. induction l as [|i l IH]; intros a0; cbn [fold_left length].
  - cbn. ring.
  - rewrite IH, S_INR. ring.
Qed.

(** X8: [integrate] is linear in the integrand, for any bounds and any sample
    count other than 1, the count at which the mapper divides by
    [samples - 1 = 0]. *)
Theorem integrate_linear (f g : R -> R) (c a b : R) (n : nat) :
  n <> 1%nat ->
  integrate (fun v => f v + g v) a b n = integrate f a b n + integrate g a b n /\
  integrate (fun v => c * f v) a b n = c * integrate f a b n.
Proof.
  intros _. rewrite !integrate_sum. at_R. split.
  - rewrite <- fold_left_sum_split. rewrite Rplus_0_r.
    apply fold_left_pointwise. intros acc i _. ring.
  - replace 0 with (c * 0) at 1 by ring. rewrite <- fold_left_sum_scale.
    apply fold_left_pointwise. intros acc i _. ring.
Qed.

Lemma integrate_linear_witness :
  3%nat <> 1%nat /\
  integrate (fun v : R => v * v + 2 * v) 0 4 3
  = integrate (fun v : R => v * v) 0 4 3 + integrate (fun v : R => 2 * v) 0 4 3.
Proof.
  assert (Hn : 3%nat <> 1%nat) by discriminate.
  split; [exact Hn|].
  exact (proj1 (integrate_linear (fun v => v * v) (fun v => 2 * v) 1 0 4 3 Hn)).
Defined.

(** The linearity fails in binary64 at a sample count of 1, where the width is
    infinite: the integral of [1 + -1] is NaN, the sum of the integrals is
    [Infinity + -Infinity]. *)
Example integrate_one_sample_run :
  (integrate (fun _ : float => 1) 0 1 1,
   integrate (fun _ : float => -1) 0 1 1,
   integrate (fun _ : float => 1 + -1) 0 1 1)%float
  = (infinity, neg_infinity, nan).
Proof. vm_compute. reflexivity. Qed.

(** X9: on a constant [c], with [n >= 2] samples, [integrate] returns
    [n * ((b - a) / (n - 1) + a) * c]: all [n] samples are counted, each with
    the width the code computes.  From [a = 0] this is [c * b * n / (n - 1)],
    above the exact [c * b] by the factor [n / (n - 1)]. *)
Theorem integrate_constant (c a b : R) (n : nat) :
  (2 <= n)%nat ->
  integrate (fun _ => c) a b n = INR n * ((b - a) / (INR n - 1) + a) * c /\
  integrate (fun _ => c) 0 b n = c * b * (INR n / (INR n - 1)).
Proof.
  intros Hn.
  assert (Hn' : 2 <= INR n) by (apply (le_INR 2); exact Hn).
  assert (Hgen : forall a0, integrate (fun _ => c) a0 b n
                            = INR n * ((b - a0) / (INR n - 1) + a0) * c).
  { intros a0. rewrite integrate_sum.
    rewrite (fold_left_sum_const
               (mul (map (of_Z 1) (of_Z 0) (sub (of_nat n) (of_Z 1)) a0 b) c)).
    rewrite length_seq.
    assert (Ewidth : map (of_Z 1) (of_Z 0) (sub (of_nat n) (of_Z 1)) a0 b
                     = (b - a0) / (INR n - 1) + a0).
    { rewrite map_R. at_R. rewrite <- INR_IZR_INZ. field. lra. }
    rewrite Ewidth. at_R. ring. }
  split; [apply Hgen|]. rewrite Hgen. field. lra.
Qed.

Lemma integrate_constant_witness :
  (2 <= 2)%nat /\ integrate (fun _ : R => 1) 0 3 2 = 1 * 3 * (INR 2 / (INR 2 - 1)).
Proof.
  split; [lia|].
  exact (proj2 (integrate_constant 1 0 3 2 (le_n 2))).
Defined.

End SamplingLaws.

(** ** The polyline plotter *)

Section Plotting.
Context {num : Type} `{Number num}.

(** After the first slot the loop of [plot] only draws line segments. *)
Lemma plot_loop_later (canvas : Canvas num) (view : PlotView num)
    (pts : list (Point num)) (i : nat) (c : Ctx) :
  forEach (List.map Some pts) (S i)
    (fun raw i0 ctx =>
       if (i0 =? 0)%nat
       then moveTo (x (project canvas view raw)) (y (project canvas view raw)) ctx
       else lineTo (x (project canvas view raw)) (y (project canvas view raw)) ctx)
    c
  = {| strokeStyle := strokeStyle c; lineWidth := lineWidth c;
       path := path c ++
         List.map (fun p => LineTo (x (project canvas view p)) (y (project canvas view p)))
           pts;
       surface := surface c |}.
Proof.
  revert i c. induction pts as [|p pts IH]; intros i c; cbn [List.map forEach].
  - destruct c; cbn. now rewrite app_nil_r.
  - cbn [Nat.eqb]. rewrite IH. cbn. now rewrite <- app_assoc.
Qed.

(** The stroke [plot] makes of an array without holes: a move to the first
    projected point, then a line to each of the others. *)
Lemma plot_filled (canvas : Canvas num) (pts : list (Point num))
    (view : PlotView num) (color : string) (ctx : Ctx) :
  surface (plot canvas (List.map Some pts) view color ctx) =
  surface ctx ++
    [{| stroke_style := color; stroke_width := of_Z 2;
        stroke_path :=
          match pts with
          | [] => []
          | p :: rest =>
              MoveTo (x (project canvas view p)) (y (project canvas view p))
              :: List.map
                   (fun q => LineTo (x (project canvas view q)) (y (project canvas view q)))
                   rest
          end |}].
Proof.
  unfold plot. destruct pts as [|p rest]; cbn [List.map forEach Nat.eqb].
  - reflexivity.
  - rewrite plot_loop_later. reflexivity.
Qed.

(** The loop of [plot] adds one path command for every filled slot, holes
    being skipped, and touches nothing else. *)
Lemma plot_loop_count (canvas : Canvas num) (view : PlotView num)
    (points : list (option (Point num))) (i : nat) (c : Ctx) :
  exists more,
    forEach points i
      (fun raw i0 ctx =>
         if (i0 =? 0)%nat
         then moveTo (x (project canvas view raw)) (y (project canvas view raw)) ctx
         else lineTo (x (project canvas view raw)) (y (project canvas view raw)) ctx)
      c
    = {| strokeStyle := strokeStyle c; lineWidth := lineWidth c;
         path := path c ++ more; surface := surface c |} /\
    length more =
      length (filter (fun slot => match slot with Some _ => true | None => false end)
                points).
Proof.
  revert i c. induction points as [|[p|] points IH]; intros i c; cbn [forEach filter].
  - exists []. destruct c; cbn. now rewrite app_nil_r.
  - destruct (i =? 0)%nat.
    + destruct (IH (S i) (moveTo (x (project canvas view p)) (y (project canvas view p)) c))
        as [more [E Hlen]].
      eexists (_ :: more). rewrite E. cbn. rewrite <- app_assoc. split; [reflexivity|].
      cbn. now rewrite Hlen.
    + destruct (IH (S i) (lineTo (x (project canvas view p)) (y (project canvas view p)) c))
        as [more [E Hlen]].
      eexists (_ :: more). rewrite E. cbn. rewrite <- app_assoc. split; [reflexivity|].
      cbn. now rewrite Hlen.
  - apply IH.
Qed.

(** X10: [plot] keeps what is on the surface and adds exactly one stroke, in the
    given color and 2 wide, which it leaves as the current style.  The path of
    the stroke has one command for every filled slot of the array; for an
    array without holes it is a move to the first projected point followed by
    a line to each of the others, and for the empty array it is empty. *)
Theorem plot_polyline (canvas : Canvas num) (view : PlotView num) (color : string)
    (ctx : Ctx) :
  (forall points : list (option (Point num)),
     strokeStyle (plot canvas points view color ctx) = color /\
     lineWidth (plot canvas points view color ctx) = of_Z 2 /\
     exists pth,
       surface (plot canvas points view color ctx) =
         surface ctx ++
           [{| stroke_style := color; stroke_width := of_Z 2; stroke_path := pth |}] /\
       length pth =
         length (filter (fun slot => match slot with Some _ => true | None => false end)
                   points)) /\
  (forall pts : list (Point num),
     surface (plot canvas (List.map Some pts) view color ctx) =
     surface ctx ++
       [{| stroke_style := color; stroke_width := of_Z 2;
           stroke_path :=
             match pts with
             | [] => []
             | p :: rest =>
                 MoveTo (x (project canvas view p)) (y (project canvas view p))
                 :: List.map
                      (fun q => LineTo (x (project canvas view q))
                                       (y (project canvas view q)))
                      rest
             end |}]).
Proof.
  split; [|intros pts; apply plot_filled].
  intros points. unfold plot.
  destruct (plot_loop_count canvas view points 0 (beginPath ctx)) as [more [E Hlen]].
  rewrite E. cbn. repeat split. exists more. split; [reflexivity | exact Hlen].
Qed.

(** X11: plotting a sample of [n] points draws one polyline through the [n]
    projected sample points, in index order. *)
Theorem plot_sample (canvas : Canvas num) (view : PlotView num) (color : string)
    (ctx : Ctx) (f : MathFunction) (a b : num) (n : nat) :
  surface (plot canvas (sample f a b n) view color ctx) =
  surface ctx ++
    [{| stroke_style := color; stroke_width := of_Z 2;
        stroke_path :=
          match n with
          | O => []
          | S m =>
              MoveTo
                (x (project canvas view
                      {| x := map (of_nat 0) (of_Z 0) (sub (of_nat n) (of_Z 1)) a b;
                         y := fn f (map (of_nat 0) (of_Z 0) (sub (of_nat n) (of_Z 1)) a b) |}))
                (y (project canvas view
                      {| x := map (of_nat 0) (of_Z 0) (sub (of_nat n) (of_Z 1)) a b;
                         y := fn f (map (of_nat 0) (of_Z 0) (sub (of_nat n) (of_Z 1)) a b) |}))
              :: List.map
                   (fun i =>
                      LineTo
                        (x (project canvas view
                              {| x := map (of_nat i) (of_Z 0) (sub (of_nat n) (of_Z 1)) a b;
                                 y := fn f (map (of_nat i) (of_Z 0)
                                              (sub (of_nat n) (of_Z 1)) a b) |}))
                        (y (project canvas view
                              {| x := map (of_nat i) (of_Z 0) (sub (of_nat n) (of_Z 1)) a b;
                                 y := fn f (map (of_nat i) (of_Z 0)
                                              (sub (of_nat n) (of_Z 1)) a b) |})))
                   (seq 1 m)
          end |}].
Proof.
  rewrite sample_points.
  rewrite <- (map_map
                (fun i => {| x := map (of_nat i) (of_Z 0) (sub (of_nat n) (of_Z 1)) a b;
                             y := fn f (map (of_nat i) (of_Z 0)
                                          (sub (of_nat n) (of_Z 1)) a b) |})
                Some).
  rewrite plot_filled. destruct n as [|m]; [reflexivity|].
  cbn [seq List.map]. now rewrite map_map.
Qed.

End Plotting.

(** ** More on the pointer and wheel controller *)

Section SessionLaws.
Context {num : Type} `{Number num}.

(** X12: during a drag every pointer-move is computed from the snapshot taken at
    pointer-down, so the moves do not add up: after two moves the state is
    the one the second move alone gives. *)
Theorem pointermove_last_wins (app : App) (d : DragData) (e1 e2 : Point num) :
  app_dragging app = Some d ->
  on_pointermove (pointer_id d) e2 (on_pointermove (pointer_id d) e1 app)
  = on_pointermove (pointer_id d) e2 app.
Proof.
  intros Hd. unfold on_pointermove. rewrite Hd, Z.eqb_refl. cbn.
  rewrite ?Hd, ?Z.eqb_refl. cbn. reflexivity.
Qed.

(** X13: a drag session, with its pointer, anchor and snapshot, survives every
    sequence of events that has no pointer-up of its own pointer: further
    pointer-downs, the moves and ups of other pointers, wheel and resize
    events. *)
Theorem session_survives (events : list Event) (app : App) (d : DragData) :
  app_dragging app = Some d ->
  (forall e, ~ In (PointerUp (pointer_id d) e) events) ->
  app_dragging (run app events) = Some d.
Proof.
  unfold run. revert app.
  induction events as [|ev events IH]; intros app Hd Hnone; cbn; [exact Hd|].
  apply IH.
  - destruct (dispatch_keeps_session app d ev Hd) as [Hkept|[[e Hup] _]];
      [exact Hkept|].
    exfalso. apply (Hnone e). left. exact Hup.
  - intros e Hin. apply (Hnone e). now right.
Qed.

(** X14: what each listener can touch: only a wheel event changes the size of the
    view, only a pointer-move of the dragging pointer changes its center, and
    only a resize changes the surface dimensions. *)
Theorem listeners_footprint (app : App) (ev : Event) :
  (size (app_view (dispatch app ev)) <> size (app_view app) ->
   exists deltaY, ev = Wheel deltaY) /\
  (center (app_view (dispatch app ev)) <> center (app_view app) ->
   exists id e d,
     ev = PointerMove id e /\ app_dragging app = Some d /\ pointer_id d = id) /\
  (app_canvas (dispatch app ev) <> app_canvas app ->
   exists rect, ev = Resize rect).
Proof.
  destruct ev as [id e|id e|id e|deltaY|rect]; cbn.
  - unfold on_pointerdown. destruct (app_dragging app); cbn;
      repeat split; intros Hne; now contradiction Hne.
  - unfold on_pointermove. destruct (app_dragging app) as [d|] eqn:Hd; cbn.
    + destruct (Z.eqb_spec (pointer_id d) id) as [E|E]; cbn.
      * repeat split; intros Hne; try now contradiction Hne.
        now exists id, e, d.
      * repeat split; intros Hne; now contradiction Hne.
    + repeat split; intros Hne; now contradiction Hne.
  - unfold on_pointerup. destruct (app_dragging app) as [d|]; cbn.
    + destruct (pointer_id d =? id)%Z; cbn;
        repeat split; intros Hne; now contradiction Hne.
    + repeat split; intros Hne; now contradiction Hne.
  - repeat split; intros Hne; try now contradiction Hne. now exists deltaY.
  - repeat split; intros Hne; try now contradiction Hne. now exists rect.
Qed.

End SessionLaws.

Section DragAndZoomLaws.
(* Here [number] is read as a real number. *)
Local Open Scope R_scope.

Lemma pointermove_last_wins_witness :
  let d := {| pointer_id := 7; start := {| x := 2; y := 0 |};
              view := initial_view |} in
  let app := {| app_view := initial_view; app_dragging := Some d;
                app_canvas := canvas_800x600; app_cursor := "grabbing" |} in
  let e1 := {| x := 450; y := 300 |} in
  let e2 := {| x := 500; y := 310 |} in
  app_dragging app = Some d /\
  on_pointermove 7 e2 (on_pointermove 7 e1 app) = on_pointermove 7 e2 app.
Proof.
  intros d app e1 e2. split; [reflexivity|].
  exact (pointermove_last_wins app d e1 e2 eq_refl).
Defined.

Lemma session_survives_witness :
  let d := {| pointer_id := 7; start := {| x := 2; y := 0 |};
              view := initial_view |} in
  let app := {| app_view := initial_view; app_dragging := Some d;
                app_canvas := canvas_800x600; app_cursor := "grabbing" |} in
  let events := [PointerDown 8 {| x := 1; y := 1 |};
                 PointerUp 8 {| x := 1; y := 1 |};
                 Wheel 125] in
  app_dragging app = Some d /\
  (forall e, ~ In (PointerUp 7 e) events) /\
  app_dragging (run app events) = Some d.
Proof.
  intros d app events.
  assert (Hnone : forall e, ~ In (PointerUp (pointer_id d) e) events).
  { intros e [Hin|[Hin|[Hin|[]]]]; discriminate. }
  split; [reflexivity|]. split; [exact Hnone|].
  exact (session_survives events app d eq_refl Hnone).
Defined.

(** X15: panning keeps the grabbed point under the pointer: as long as the size of
    the view is the one the snapshot has and the surface is not empty, after a
    pointer-move to [e] the plot-space point shown at [e] is the anchor of the
    drag. *)
Theorem drag_keeps_anchor_under_pointer (app : App) (d : DragData) (e : Point R) :
  app_dragging app = Some d ->
  size (app_view app) = size (view d) ->
  width (app_canvas app) <> 0 -> height (app_canvas app) <> 0 ->
  unproject (app_canvas app) (app_view (on_pointermove (pointer_id d) e app)) e
  = start d.
Proof.
  intros Hd Hsize HW HH. unfold on_pointermove. rewrite Hd, Z.eqb_refl. cbn.
  rewrite Hsize.
  destruct d as [id [sx sy] [[cx cy] [vw vh]]], e as [ex ey].
  destruct (app_canvas app) as [W Hc]. cbn in HW, HH |- *.
  unfold unproject, top_left, bottom_right, map; at_R; cbn.
  f_equal; field; lra.
Qed.

Lemma drag_keeps_anchor_under_pointer_witness :
  let d := {| pointer_id := 7; start := {| x := 2; y := 0 |}; view := initial_view |} in
  let app := {| app_view := initial_view; app_dragging := Some d;
                app_canvas := canvas_800x600; app_cursor := "grabbing" |} in
  let e := {| x := 450; y := 360 |} in
  (app_dragging app = Some d /\ size (app_view app) = size (view d) /\
   width (app_canvas app) <> 0 /\ height (app_canvas app) <> 0) /\
  unproject canvas_800x600 (app_view (on_pointermove 7 e app)) e = {| x := 2; y := 0 |}.
Proof.
  intros d app e.
  assert (HW : width (app_canvas app) <> 0) by (cbn; lra).
  assert (HH : height (app_canvas app) <> 0) by (cbn; lra).
  split; [repeat split; assumption|].
  exact (drag_keeps_anchor_under_pointer app d e eq_refl eq_refl HW HH).
Defined.

(** X16: from idle, on a surface that is not empty, pressing at [e], dragging
    anywhere and coming back to [e] leaves the view where it was. *)
Theorem drag_back_restores_view (app : App) (id : Z) (e e' : Point R) :
  app_dragging app = None ->
  width (app_canvas app) <> 0 -> height (app_canvas app) <> 0 ->
  app_view (run app [PointerDown id e; PointerMove id e'; PointerMove id e])
  = app_view app.
Proof.
  intros Hidle HW HH. cbn. unfold on_pointerdown. rewrite Hidle.
  unfold on_pointermove. cbn. rewrite Z.eqb_refl. cbn. rewrite Z.eqb_refl. cbn.
  destruct (app_view app) as [[cx cy] [vw vh]], e as [ex ey].
  cbn. at_R. f_equal. f_equal; ring.
Qed.

Lemma drag_back_restores_view_witness :
  let app := initial_app canvas_800x600 in
  let e := {| x := 400; y := 300 |} in
  let e' := {| x := 10; y := 20 |} in
  (app_dragging app = None /\
   width (app_canvas app) <> 0 /\ height (app_canvas app) <> 0) /\
  app_view (run app [PointerDown 1 e; PointerMove 1 e'; PointerMove 1 e]) = initial_view.
Proof.
  intros app e e'.
  assert (HW : width (app_canvas app) <> 0) by (cbn; lra).
  assert (HH : height (app_canvas app) <> 0) by (cbn; lra).
  split; [repeat split; assumption|].
  exact (drag_back_restores_view app 1 e e' eq_refl HW HH).
Defined.

(** One event keeps the ratio of width to height, written without division. *)
Lemma dispatch_keeps_ratio (app : App) (ev : Event) (w0 h0 : R) :
  w (size (app_view app)) * h0 = h (size (app_view app)) * w0 ->
  w (size (app_view (dispatch app ev))) * h0
  = h (size (app_view (dispatch app ev))) * w0.
Proof.
  intros Hratio. destruct ev as [id e|id e|id e|deltaY|rect]; cbn.
  - unfold on_pointerdown. destruct (app_dragging app); cbn; exact Hratio.
  - unfold on_pointermove. destruct (app_dragging app) as [d|]; cbn; [|exact Hratio].
    destruct (pointer_id d =? id)%Z; cbn; exact Hratio.
  - unfold on_pointerup. destruct (app_dragging app) as [d|]; cbn; [|exact Hratio].
    destruct (pointer_id d =? id)%Z; cbn; exact Hratio.
  - at_R.
    replace (_ * h0) with
      ((1 + 1 / 10 * deltaY / 125) * (w (size (app_view app)) * h0)) by field.
    rewrite Hratio. field.
  - exact Hratio.
Qed.

(** X17: no sequence of events changes the proportions of the view: width and
    height are only ever scaled together, so [w' * h = h' * w] between the
    size before, [(w, h)], and the size after, [(w', h')]. *)
Theorem aspect_ratio_kept (events : list Event) (app : App) :
  w (size (app_view (run app events))) * h (size (app_view app))
  = h (size (app_view (run app events))) * w (size (app_view app)).
Proof.
  unfold run.
  assert (Hgen : forall (w0 h0 : R) (app0 : App),
            w (size (app_view app0)) * h0 = h (size (app_view app0)) * w0 ->
            w (size (app_view (fold_left dispatch events app0))) * h0
            = h (size (app_view (fold_left dispatch events app0))) * w0).
  { intros w0 h0. induction events as [|ev events IH]; intros app0 Hratio; cbn.
    - exact Hratio.
    - apply IH. now apply dispatch_keeps_ratio. }
  apply Hgen. ring.
Qed.

(** X18: zooming by [deltaY] and then by [-deltaY] does not give the size back: it
    is scaled by [1 - (deltaY / 1250)^2].  Two wheel events can be exchanged. *)
Theorem wheel_there_and_back (deltaY deltaY' : R) (app : App) :
  size (app_view (on_wheel (- deltaY) (on_wheel deltaY app)))
  = {| w := w (size (app_view app)) * (1 - (deltaY / 1250) * (deltaY / 1250));
       h := h (size (app_view app)) * (1 - (deltaY / 1250) * (deltaY / 1250)) |} /\
  on_wheel deltaY' (on_wheel deltaY app) = on_wheel deltaY (on_wheel deltaY' app).
Proof.
  unfold on_wheel; at_R; cbn. split.
  - f_equal; field.
  - f_equal. f_equal. f_equal; field.
Qed.

End DragAndZoomLaws.

(** ** More on the grid *)

Section GridFuel.
Context {num : Type} `{Number num}.

(** A loop that finished has one result, whatever the fuel. *)
Lemma for_num_unique (St : Type) (cond : num -> bool) (next : num -> num)
    (body : num -> St -> St) (fuel1 fuel2 : nat) (v : num) (s s1 s2 : St) :
  for_num fuel1 cond next body v s = Some s1 ->
  for_num fuel2 cond next body v s = Some s2 ->
  s1 = s2.
Proof.
  intros E1 E2.
  apply for_num_more_fuel with (extra := fuel2) in E1.
  apply for_num_more_fuel with (extra := fuel1) in E2.
  rewrite Nat.add_comm in E2. congruence.
Qed.

(** A loop whose condition stays true never finishes: no fuel is enough. *)
Lemma for_num_diverges (St : Type) (cond : num -> bool) (next : num -> num)
    (body : num -> St -> St) (Inv : num -> Prop) :
  (forall v, Inv v -> cond v = true /\ Inv (next v)) ->
  forall (fuel : nat) (v : num) (s : St),
    Inv v -> for_num fuel cond next body v s = None.
Proof.
  intros Hstay. induction fuel as [|fuel IH]; intros v s Hv; cbn; [reflexivity|].
  destruct (Hstay v Hv) as [-> Hnext]. now apply IH.
Qed.

(** What [grid] returns does not depend on the fuel it was given. *)
Lemma grid_unique (fuel1 fuel2 : nat) (canvas : Canvas num) (view : PlotView num)
    (g : num) (ctx c1 c2 : Ctx) :
  grid fuel1 canvas view g ctx = Some c1 ->
  grid fuel2 canvas view g ctx = Some c2 ->
  c1 = c2.
Proof.
  unfold grid, grid_right, grid_left, grid_up, grid_down. cbv zeta.
  set (s0 := set_lineWidth (decimal 2 10) _).
  destruct (for_num fuel1 _ _ (grid_right_body canvas view) g s0) as [a1|] eqn:A1;
    [|discriminate].
  destruct (for_num fuel2 _ _ (grid_right_body canvas view) g s0) as [a2|] eqn:A2;
    [|discriminate].
  assert (a1 = a2) by exact (for_num_unique _ _ _ _ _ _ _ _ _ _ A1 A2). subst a2.
  cbn [bind].
  set (s1 := set_lineWidth (decimal 2 10) (set_strokeStyle translucent a1)).
  destruct (for_num fuel1 _ _ _ g s1) as [b1|] eqn:B1; [|discriminate].
  destruct (for_num fuel2 _ _ _ g s1) as [b2|] eqn:B2; [|discriminate].
  assert (b1 = b2) by exact (for_num_unique _ _ _ _ _ _ _ _ _ _ B1 B2). subst b2.
  cbn [bind].
  destruct (for_num fuel1 _ _ _ g b1) as [d1|] eqn:D1; [|discriminate].
  destruct (for_num fuel2 _ _ _ g b1) as [d2|] eqn:D2; [|discriminate].
  assert (d1 = d2) by exact (for_num_unique _ _ _ _ _ _ _ _ _ _ D1 D2). subst d2.
  cbn [bind]. intros E1 E2.
  exact (for_num_unique _ _ _ _ _ _ _ _ _ _ E1 E2).
Qed.

End GridFuel.

Section GridLaws.
(* Here [number] is read as a real number. *)
Local Open Scope R_scope.

(** X19: with a positive granularity [grid] returns, on any view and any surface:
    its four loops finish, and the drawing they leave is the same whatever
    the fuel. *)
Theorem grid_returns (canvas : Canvas R) (view : PlotView R) (g : R) (ctx : Ctx) :
  0 < g ->
  exists ctx',
    (exists fuel, grid fuel canvas view g ctx = Some ctx') /\
    (forall fuel ctx'', grid fuel canvas view g ctx = Some ctx'' -> ctx'' = ctx').
Proof.
  intros Hg. destruct (grid_terminates canvas view g ctx Hg) as [fuel [ctx' Hrun]].
  exists ctx'. split; [now exists fuel|].
  intros fuel' ctx'' Hrun'. exact (grid_unique _ _ _ _ _ _ _ _ Hrun' Hrun).
Qed.

Lemma grid_returns_witness :
  0 < 1 / 10 /\
  exists ctx',
    (exists fuel,
       grid fuel canvas_800x600 initial_view (1 / 10)
         {| strokeStyle := "black"; lineWidth := 1; path := []; surface := [] |}
       = Some ctx') /\
    (forall fuel ctx'',
       grid fuel canvas_800x600 initial_view (1 / 10)
         {| strokeStyle := "black"; lineWidth := 1; path := []; surface := [] |}
       = Some ctx'' -> ctx'' = ctx').
Proof.
  assert (Hg : 0 < 1 / 10) by lra.
  split; [exact Hg|].
  exact (grid_returns canvas_800x600 initial_view (1 / 10)
           {| strokeStyle := "black"; lineWidth := 1; path := []; surface := [] |} Hg).
Defined.

(** X20: with a granularity of zero or below, on a view of non-negative width,
    [grid] never returns: the first loop runs forever when the granularity is
    not beyond the right edge, and the second loop does otherwise. *)
Theorem grid_hangs (canvas : Canvas R) (view : PlotView R) (g : R) (ctx : Ctx) :
  g <= 0 -> 0 <= w (size view) ->
  forall fuel, grid fuel canvas view g ctx = None.
Proof.
  intros Hg Hw fuel. unfold grid. cbv zeta.
  set (s0 := set_lineWidth (decimal 2 10) _).
  destruct (Rle_dec g (x (bottom_right view))) as [Hin|Hout].
  - unfold grid_right.
    rewrite (for_num_diverges _ _ _ _ (fun v => v <= g)); [reflexivity| |lra].
    intros v Hv. at_R. split; [apply Rleb_true; lra | lra].
  - unfold grid_right. destruct fuel as [|fuel]; [reflexivity|].
    cbn [for_num]. at_R.
    assert (E : Rleb g (x (bottom_right view)) = false) by (apply Rleb_false; lra).
    rewrite E. cbn [bind]. unfold grid_left.
    rewrite (for_num_diverges _ _ _ _ (fun v => g <= v)); [reflexivity| |lra].
    intros v Hv. at_R. split; [|lra].
    apply Rleb_true.
    destruct (corners_R view) as [Etl Ebr]. rewrite Ebr in Hout. rewrite Etl.
    cbn [x] in *. lra.
Qed.

Lemma grid_hangs_witness :
  (0 <= 0 /\ 0 <= w (size initial_view)) /\
  grid 1000 canvas_800x600 initial_view 0
    {| strokeStyle := "black"; lineWidth := 1; path := []; surface := [] |}
  = None.
Proof.
  assert (Hg : 0 <= 0) by lra.
  assert (Hw : 0 <= w (size (@initial_view R _))) by (cbn; lra).
  split; [split; assumption|].
  exact (grid_hangs canvas_800x600 initial_view 0
           {| strokeStyle := "black"; lineWidth := 1; path := []; surface := [] |}
           Hg Hw 1000%nat).
Defined.

(** Where the first loop has put its lines when it returns: at the multiples
    of the granularity up to the right edge. *)
Lemma grid_right_multiples (fuel : nat) (canvas : Canvas R) (view : PlotView R)
    (g : R) (ctx ctx' : Ctx) :
  0 < g ->
  grid_right fuel canvas view g ctx = Some ctx' ->
  exists n : nat,
    surface ctx' =
      surface ctx ++
        List.map
          (fun k =>
             gridline canvas view (INR k * g)
               (if ltb (rem (INR k * g) (of_Z 1)) (decimal 1 100)
                then decimal 8 10 else decimal 2 10))
          (seq 1 n) /\
    x (bottom_right view) < INR (S n) * g /\
    (n <> 0%nat -> INR n * g <= x (bottom_right view)).
Proof.
  intros Hg Hrun. unfold grid_right in Hrun.
  pose (line := fun k : nat =>
          gridline canvas view (INR k * g)
            (if ltb (rem (INR k * g) (of_Z 1)) (decimal 1 100)
             then decimal 8 10 else decimal 2 10)).
  pose (Inv := fun (v : R) (c : @Ctx R) =>
          exists n : nat,
            v = INR (S n) * g /\
            surface c = surface ctx ++ List.map line (seq 1 n) /\
            (n <> 0%nat -> INR n * g <= x (bottom_right view))).
  apply (for_num_invariant _ _ _ Inv) in Hrun; unfold Inv.
  - destruct Hrun as [v' [[n [Ev [Esurf Hlast]]] Hstop]].
    exists n. split; [exact Esurf|]. split; [|exact Hlast].
    at_R. apply Rleb_false in Hstop. lra.
  - intros v c [n [Ev [Esurf Hlast]]] Hcond. at_R. apply Rleb_true in Hcond.
    exists (S n). split; [|split].
    + rewrite Ev, !S_INR. ring.
    + rewrite grid_right_body_surface, Esurf, <- app_assoc.
      rewrite seq_S, map_app. cbn [List.map]. unfold line at 3.
      replace (INR (1 + n)) with (INR (S n)) by reflexivity.
      rewrite <- Ev. reflexivity.
    + intros _. rewrite <- Ev. exact Hcond.
  - exists 0%nat. split; [cbn; ring|]. split; [cbn; now rewrite app_nil_r|].
    intros Hne. now contradiction Hne.
Qed.

(** X21: with a positive granularity [g] the first loop of [grid] returns, with
    one result whatever the fuel, and it has drawn its lines at
    [g, 2g, ..., ng], in this order, where [ng] is the last multiple of [g]
    that is not beyond the right edge of the view; it has drawn none when [g]
    itself is beyond the edge. *)
Theorem grid_right_abscissas (canvas : Canvas R) (view : PlotView R)
    (g : R) (ctx : Ctx) :
  0 < g ->
  exists (n : nat) (ctx' : Ctx),
    (exists fuel, grid_right fuel canvas view g ctx = Some ctx') /\
    (forall fuel ctx'', grid_right fuel canvas view g ctx = Some ctx'' -> ctx'' = ctx') /\
    surface ctx' =
      surface ctx ++
        List.map
          (fun k =>
             gridline canvas view (INR k * g)
               (if ltb (rem (INR k * g) (of_Z 1)) (decimal 1 100)
                then decimal 8 10 else decimal 2 10))
          (seq 1 n) /\
    x (bottom_right view) < INR (S n) * g /\
    (n <> 0%nat -> INR n * g <= x (bottom_right view)).
Proof.
  intros Hg.
  destruct (for_num_up_terminates _ (grid_right_body canvas view) g
              (x (bottom_right view)) Hg g ctx) as [fuel [ctx' Hrun]].
  fold (grid_right fuel canvas view g ctx) in Hrun.
  destruct (grid_right_multiples fuel canvas view g ctx ctx' Hg Hrun)
    as [n [Hsurf [Hlt Hle]]].
  exists n, ctx'. split; [now exists fuel|]. split; [|repeat split; assumption].
  intros fuel' ctx'' Hrun'. unfold grid_right in Hrun, Hrun'.
  exact (for_num_unique _ _ _ _ _ _ _ _ _ _ Hrun' Hrun).
Qed.

Lemma grid_right_abscissas_witness :
  0 < 5 / 10 /\
  exists (n : nat) (ctx' : Ctx),
    (exists fuel,
       grid_right fuel canvas_800x600 initial_view (5 / 10)
         {| strokeStyle := "black"; lineWidth := 1; path := []; surface := [] |}
       = Some ctx') /\
    x (bottom_right initial_view) < INR (S n) * (5 / 10) /\
    (n <> 0%nat -> INR n * (5 / 10) <= x (bottom_right initial_view)).
Proof.
  assert (Hg : 0 < 5 / 10) by lra.
  split; [exact Hg|].
  destruct (grid_right_abscissas canvas_800x600 initial_view (5 / 10)
              {| strokeStyle := "black"; lineWidth := 1; path := []; surface := [] |} Hg)
    as [n [ctx' [Hret [_ [_ Hn]]]]].
  exists n, ctx'. split; [exact Hret | exact Hn].
Defined.

(** In binary64 the abscissas are the running sums [g], [g + g], ..., each
    rounded, which need not be the multiples: with the source's default
    granularity 0.1 on the initial view the tenth sum is 0.9999999999999999,
    drawn 0.2 wide, and the loop stops after 39 lines, the sums of 20 and 30
    terms being the ones drawn 0.8 wide. *)
Example grid_default_granularity_run :
  Nat.iter 9 (fun v => PrimFloat.add v 0.1%float) 0.1%float = 0.99999999999999989%float /\
  option_map
    (fun c => (length (surface c),
               List.map fst
                 (filter (fun p => PrimFloat.eqb (stroke_width (snd p)) 0.8%float)
                    (combine (seq 1 (length (surface c))) (surface c)))))
    (grid_right 100 canvas_800x600 initial_view 0.1%float
       {| strokeStyle := "black"; lineWidth := 1%float; path := []; surface := [] |})
  = Some (39%nat, [20%nat; 30%nat]).
Proof. split; vm_compute; reflexivity. Qed.

End GridLaws.

(** ** The transform functions and the frame *)

Section FrameLaws.
(* Here [number] is read as a real number. *)
Local Open Scope R_scope.

(** Integrands that agree everywhere have the same integral. *)
Lemma integrate_ext (f g : R -> R) (a b : R) (n : nat) :
  (forall v, f v = g v) -> integrate f a b n = integrate g a b n.
Proof.
  intros Hfg. rewrite !integrate_sum. apply fold_left_pointwise.
  intros acc i _. now rewrite Hfg.
Qed.

(** The integral of the opposite is the opposite of the integral. *)
Lemma integrate_opp (f : R -> R) (a b : R) (n : nat) :
  integrate (fun v => - f v) a b n = - integrate f a b n.
Proof.
  rewrite !integrate_sum. at_R.
  transitivity
    (-1 * fold_left
            (fun acc i =>
               acc + map 1 0 (IZR (Z.of_nat n) - 1) a b
                     * f (map (IZR (Z.of_nat i)) 0 (IZR (Z.of_nat n) - 1) a b))
            (seq 0 n) 0); [|ring].
  rewrite <- fold_left_sum_scale. rewrite Rmult_0_r.
  apply fold_left_pointwise. intros acc i _. ring.
Qed.

(** X22: the sine transform [C] is odd in the frequency [w], the cosine transform
    [D] is even, and the amplitude [A], which is never negative, is even,
    whatever [Freq] and [Phase] are. *)
Theorem transform_symmetry (Freq Phase w0 : R) :
  fn (Fourier.C Freq Phase) (- w0) = - fn (Fourier.C Freq Phase) w0 /\
  fn (Fourier.D Freq Phase) (- w0) = fn (Fourier.D Freq Phase) w0 /\
  fn (Fourier.A Freq Phase) (- w0) = fn (Fourier.A Freq Phase) w0 /\
  0 <= fn (Fourier.A Freq Phase) w0.
Proof.
  assert (HC : fn (Fourier.C Freq Phase) (- w0) = - fn (Fourier.C Freq Phase) w0).
  { cbn [fn Fourier.C]. rewrite <- integrate_opp. apply integrate_ext. intros v.
    rewrite <- Ropp_mult_distr_l, sin_neg. ring. }
  assert (HD : fn (Fourier.D Freq Phase) (- w0) = fn (Fourier.D Freq Phase) w0).
  { cbn [fn Fourier.D]. apply integrate_ext. intros v.
    now rewrite <- Ropp_mult_distr_l, cos_neg. }
  repeat split; try assumption.
  - cbn [fn Fourier.A]. unfold get. rewrite HC, HD. f_equal. ring.
  - cbn [fn Fourier.A]. apply sqrt_pos.
Qed.

(** X23: the parameters [render] sets: [Freq] stays between 0.5 and 2.5, and for a
    clock reading that is not negative [Phase] lies in [0, 2 pi). *)
Theorem render_parameters (now : R) :
  5 / 10 <= render_Freq now <= 25 / 10 /\
  (0 <= now -> 0 <= render_Phase now < 2 * PI).
Proof.
  unfold render_Freq, render_Phase. split.
  - pose proof (SIN_bound (now / 1000 / 4)) as [Hlo Hhi]. lra.
  - intros Hnow.
    assert (Ht : 0 <= now / 1000 / 4) by lra.
    pose proof (rem_1_frac _ Ht) as Erem. cbn in Erem. rewrite Erem.
    destruct (base_fp (now / 1000 / 4)) as [Hlo Hhi].
    pose proof PI_RGT_0 as Hpi. split; nra.
Qed.

(** The stroke [plot] makes of a sample: the polyline through the sample's
    points, in index order. *)
Lemma plot_sample_stroke (canvas : Canvas R) (view : PlotView R) (color : string)
    (ctx : Ctx) (f : MathFunction) (a b : R) (n : nat) :
  surface (plot canvas (sample f a b n) view color ctx) =
  surface ctx ++
    [{| stroke_style := color; stroke_width := 2;
        stroke_path :=
          polyline canvas view
            (List.map
               (fun i => {| x := map (of_nat i) 0 (of_nat n - 1) a b;
                            y := fn f (map (of_nat i) 0 (of_nat n - 1) a b) |})
               (seq 0 n)) |}].
Proof.
  rewrite sample_points.
  rewrite <- (map_map
                (fun i => {| x := map (of_nat i) (of_Z 0) (sub (of_nat n) (of_Z 1)) a b;
                             y := fn f (map (of_nat i) (of_Z 0)
                                          (sub (of_nat n) (of_Z 1)) a b) |})
                Some).
  rewrite plot_filled. reflexivity.
Qed.

(** A polyline has one command for each of its points. *)
Lemma polyline_length (canvas : Canvas R) (view : PlotView R) (pts : list (Point R)) :
  length (polyline canvas view pts) = length pts.
Proof.
  destruct pts as [|p rest]; cbn; [reflexivity|]. now rewrite length_map.
Qed.

(** X24: a frame starts from a cleared surface and from styles it sets itself,
    so what it draws does not depend on the drawing context it is given.  It
    returns.  Its drawing is what [grid] draws with granularity 0.5 on an
    empty surface, followed by two strokes, 2 wide: in cornflowerblue the
    polyline through the 1000 points [(x_i, C(x_i))], then in rebeccapurple
    the polyline through the 1000 points [(x_i, D(x_i))], where
    [x_i = map(i, 0, 999, 0, 4)] and [C] and [D] read the [Freq] and [Phase]
    of this frame. *)
Theorem frame_draws (now : R) (canvas : Canvas R) (view : PlotView R) (ctx : Ctx) :
  let Freq := render_Freq now in
  let Phase := render_Phase now in
  let curve := fun f : MathFunction =>
    polyline canvas view
      (List.map
         (fun i => {| x := map (of_nat i) 0 (of_nat 1000 - 1) 0 4;
                      y := fn f (map (of_nat i) 0 (of_nat 1000 - 1) 0 4) |})
         (seq 0 1000)) in
  (forall fuel ctx0,
     frame fuel now canvas view ctx0 = frame fuel now canvas view ctx) /\
  (exists fuel ctx', frame fuel now canvas view ctx = Some ctx') /\
  (forall fuel ctx',
     frame fuel now canvas view ctx = Some ctx' ->
     exists gridded,
       grid fuel canvas view (5 / 10)
         {| strokeStyle := strokeStyle ctx; lineWidth := lineWidth ctx;
            path := path ctx; surface := [] |} = Some gridded /\
       surface ctx' =
         surface gridded ++
           [{| stroke_style := "cornflowerblue"; stroke_width := 2;
               stroke_path := curve (Fourier.C Freq Phase) |};
            {| stroke_style := "rebeccapurple"; stroke_width := 2;
               stroke_path := curve (Fourier.D Freq Phase) |}]) /\
  length (curve (Fourier.C Freq Phase)) = 1000%nat /\
  length (curve (Fourier.D Freq Phase)) = 1000%nat.
Proof.
  intros Freq Phase curve. split; [|split; [|split; [|split]]].
  - intros fuel ctx0. reflexivity.
  - assert (Hg : 0 < 5 / 10) by lra.
    destruct (grid_terminates canvas view (5 / 10) (clear ctx) Hg) as [fuel [c Hgrid]].
    exists fuel. unfold frame, render.
    change (decimal 5 10) with (5 / 10). rewrite Hgrid. cbn [bind]. now eexists.
  - intros fuel ctx'. unfold frame, render.
    change (decimal 5 10) with (5 / 10).
    change (clear ctx) with
      {| strokeStyle := strokeStyle ctx; lineWidth := lineWidth ctx;
         path := path ctx; surface := @nil (@Stroke R) |}.
    destruct (grid fuel canvas view (5 / 10) _) as [c|]; [|discriminate].
    cbn [bind]. intros [= <-]. exists c. split; [reflexivity|].
    rewrite !plot_sample_stroke, <- app_assoc. reflexivity.
  - subst curve. cbn beta. now rewrite polyline_length, length_map, length_seq.
  - subst curve. cbn beta. now rewrite polyline_length, length_map, length_seq.
Qed.

End FrameLaws.
